(** * Song recommendations: behaviour tracking and the recommendation scorer

    A shallow embedding of the recommendation script of the
    song-recommendations site (the variant with current-song exclusion and
    gating, and the earliest variant without either), with the properties of
    the scoring heuristic stated and proved over it.

    Modelling conventions.
    - JavaScript numbers that the script manipulates are counters; they are
      modelled as [Z] (no rounding, no NaN).  [Math.floor (a / b)] for a
      positive [b] is [Z.div].
    - Strings are Rocq [string]s (byte strings); [toLowerCase] and [trim] are
      the ASCII fragments of the JavaScript methods.
    - A plain JavaScript object used as a map is an association list in
      iteration order ([for ... in], [Object.values]): array-index keys
      first, in increasing numeric order, then the other keys in the order
      of their creation.  Keys are assumed not to collide with the
      properties every object inherits from [Object.prototype].
    - [null] and [undefined] results are both [None]: the caller only tests
      the result for truthiness.
    - [Math.random ()] is a rational of the interval [0,1) passed in as an
      argument; [new URL (u, base).href] and [window.location] are fields of
      a [Window] record, the constructor returning [None] where it throws. *)

From Stdlib Require Import List String Ascii ZArith NArith Arith Bool Lia.
From Stdlib Require Import DecimalString.
From Stdlib Require Import Sorting.Permutation Relations.Relation_Operators.
Import ListNotations.

Local Open Scope string_scope.
Local Open Scope list_scope.
Local Open Scope Z_scope.

(** ** Strings *)

Definition lowerChar (c : ascii) : ascii :=
  let n := nat_of_ascii c in
  if ((65 <=? n) && (n <=? 90))%nat then ascii_of_nat (n + 32) else c.

Fixpoint toLowerCase (s : string) : string :=
  match s with
  | EmptyString => EmptyString
  | String c r => String (lowerChar c) (toLowerCase r)
  end.

(** [s.split (",")]: the pieces between commas; never the empty list. *)
Fixpoint splitComma (s : string) : list string :=
  match s with
  | EmptyString => [EmptyString]
  | String c r =>
      if Ascii.eqb c ","%char then EmptyString :: splitComma r
      else match splitComma r with
           | piece :: rest => String c piece :: rest
           | [] => [String c EmptyString]
           end
  end.

Definition isWhiteSpace (c : ascii) : bool :=
  let n := nat_of_ascii c in
  (((9 <=? n) && (n <=? 13)) || (n =? 32))%nat.

Fixpoint trimStart (s : string) : string :=
  match s with
  | EmptyString => EmptyString
  | String c r => if isWhiteSpace c then trimStart r else s
  end.

Fixpoint trimEnd (s : string) : string :=
  match s with
  | EmptyString => EmptyString
  | String c r =>
      let r' := trimEnd r in
      if isWhiteSpace c && String.eqb r' EmptyString then EmptyString
      else String c r'
  end.

Definition trim (s : string) : string := trimEnd (trimStart s).

(** [s.toLowerCase().split(",").map(t => t.trim())] *)
Definition tagsOf (s : string) : list string :=
  map trim (splitComma (toLowerCase s)).

(** ** Plain objects used as maps *)

Definition jsobj := list (string * Z).

Definition isDigit (c : ascii) : bool :=
  let n := nat_of_ascii c in ((48 <=? n) && (n <=? 57))%nat.

Fixpoint digitsValue (acc : N) (s : string) : option N :=
  match s with
  | EmptyString => Some acc
  | String c r =>
      if isDigit c
      then digitsValue (acc * 10 + (N.of_nat (nat_of_ascii c) - 48))%N r
      else None
  end.

(** A key is an array index when it is the canonical decimal form of an
    integer below 2^32 - 1; such keys are enumerated first. *)
Definition arrayIndex (k : string) : option N :=
  match k with
  | EmptyString => None
  | String c r =>
      if Ascii.eqb c "0"%char && negb (String.eqb r EmptyString) then None
      else match digitsValue 0%N k with
           | Some n => if (n <? 4294967295)%N then Some n else None
           | None => None
           end
  end.

Fixpoint obj_get (k : string) (o : jsobj) : option Z :=
  match o with
  | [] => None
  | (k', v) :: r => if String.eqb k k' then Some v else obj_get k r
  end.

Definition obj_has (k : string) (o : jsobj) : bool :=
  existsb (fun kv => String.eqb k (fst kv)) o.

Fixpoint obj_update (k : string) (v : Z) (o : jsobj) : jsobj :=
  match o with
  | [] => []
  | (k', v') :: r =>
      if String.eqb k k' then (k', v) :: r else (k', v') :: obj_update k v r
  end.

Fixpoint insertIndex (i : N) (k : string) (v : Z) (o : jsobj) : jsobj :=
  match o with
  | [] => [(k, v)]
  | (k', v') :: r =>
      match arrayIndex k' with
      | Some j => if (j <? i)%N then (k', v') :: insertIndex i k v r
                  else (k, v) :: o
      | None => (k, v) :: o
      end
  end.

(** Creation of a property that the object does not have yet. *)
Definition obj_create (k : string) (v : Z) (o : jsobj) : jsobj :=
  match arrayIndex k with
  | Some i => insertIndex i k v o
  | None => o ++ [(k, v)]
  end.

(** [o[k] = v] *)
Definition obj_set (k : string) (v : Z) (o : jsobj) : jsobj :=
  if obj_has k o then obj_update k v o else obj_create k v o.

(** [o[k] || 0] *)
Definition num (k : string) (o : jsobj) : Z :=
  match obj_get k o with
  | Some v => v
  | None => 0
  end.

(** [o[k] = (o[k] || 0) + d] *)
Definition bump (k : string) (d : Z) (o : jsobj) : jsobj :=
  obj_set k (num k o + d) o.

(** [keys.forEach (k => { o[k] = (o[k] || 0) + d })] *)
Definition bumpEach (keys : list string) (d : Z) (o : jsobj) : jsobj :=
  fold_left (fun acc k => bump k d acc) keys o.

(** [Object.values (o).reduce ((a, b) => a + b, 0)] *)
Definition sumValues (o : jsobj) : Z :=
  fold_left (fun a b => a + b) (map snd o) 0.

(** An object has each of its keys once. *)
Definition uniqueKeys (o : jsobj) : Prop := NoDup (map fst o).

(** ** Songs, the browsing context and the behaviour record *)

(** The fields of a catalog entry that the scorer reads; the media links,
    the cover image and the motto only reach the card. *)
Record Song := mkSong {
  title : string;
  genres : string;
  spiritualNeeds : string;
  pageUrl : option string
}.

Record Window := mkWindow {
  origin : string;
  pathname : string;
  URL_href : string -> string -> option string
}.

Record UserBehavior := mkBehavior {
  pagesVisited : jsobj;
  clicks : jsobj;
  timeSpent : jsobj
}.

Definition emptyBehavior : UserBehavior := mkBehavior [] [] [].

(** [Math.random ()] as the rational [rnum / (rnum + rgap + 1)]. *)
Record Draw := mkDraw { rnum : nat; rgap : nat }.

(** [Math.floor (Math.random () * len)] *)
Definition randomIndex (r : Draw) (len : nat) : nat :=
  ((rnum r * len) / (rnum r + rgap r + 1))%nat.

(** ** Tracking *)

(** [userBehavior.pagesVisited[page] = (userBehavior.pagesVisited[page] || 0) + 1]
    for [page = window.location.pathname]. *)
Definition trackPageVisit (w : Window) (b : UserBehavior) : UserBehavior :=
  let page := pathname w in
  mkBehavior (obj_set page (num page (pagesVisited b) + 1) (pagesVisited b))
             (clicks b) (timeSpent b).

(** [if (clicks[songTitle]) clicks[songTitle] += 1; else clicks[songTitle] = 1]:
    a counter that is missing or 0 is falsy. *)
Definition trackClick (songTitle : string) (b : UserBehavior) : UserBehavior :=
  let c := clicks b in
  mkBehavior (pagesVisited b)
             (match obj_get songTitle c with
              | Some n =>
                  if n =? 0 then obj_set songTitle 1 c
                  else obj_set songTitle (n + 1) c
              | None => obj_set songTitle 1 c
              end)
             (timeSpent b).

(** [now] is [Date.now ()] and [pageStartTime] the instant stored at
    initialisation, both in milliseconds. *)
Definition trackTimeSpent (w : Window) (now pageStartTime : Z)
    (b : UserBehavior) : UserBehavior :=
  let seconds := (now - pageStartTime) / 1000 in
  let page := pathname w in
  mkBehavior (pagesVisited b) (clicks b)
             (obj_set page (num page (timeSpent b) + seconds) (timeSpent b)).

(** One tracked event of a session.  The unload handler measures a time
    that has not run backwards. *)
Inductive tracks (w : Window) : UserBehavior -> UserBehavior -> Prop :=
  | tracks_visit b : tracks w b (trackPageVisit w b)
  | tracks_click songTitle b : tracks w b (trackClick songTitle b)
  | tracks_time now start b :
      start <= now -> tracks w b (trackTimeSpent w now start b).

(** A tracked event on whatever page the session is at. *)
Definition sessionStep (b b' : UserBehavior) : Prop := exists w, tracks w b b'.

(** The BehaviorRecord invariant and the order in which a session moves. *)
Definition nonNegative (o : jsobj) : Prop := Forall (fun kv => 0 <= snd kv) o.

Definition wellFormed (b : UserBehavior) : Prop :=
  nonNegative (pagesVisited b) /\ nonNegative (clicks b)
  /\ nonNegative (timeSpent b).

Definition countsGrow (o o' : jsobj) : Prop :=
  forall k v, obj_get k o = Some v ->
              exists v', obj_get k o' = Some v' /\ v <= v'.

Definition behaviorGrows (b b' : UserBehavior) : Prop :=
  countsGrow (pagesVisited b) (pagesVisited b')
  /\ countsGrow (clicks b) (clicks b')
  /\ countsGrow (timeSpent b) (timeSpent b').

(** ** The scorer *)

Definition truthyUrl (u : option string) : bool :=
  match u with
  | Some s => negb (String.eqb s EmptyString)
  | None => false
  end.

(** [songs.filter (song => song.pageUrl)] *)
Definition publishedSongs (songs : list Song) : list Song :=
  filter (fun song => truthyUrl (pageUrl song)) songs.

(** The comparison of a song's URL with a page path, inside its [try]:
    [new URL (song.pageUrl, origin).href === origin + page
     || song.pageUrl === page], [false] when the constructor throws.  It is
    only ever applied to songs that have a URL. *)
Definition samePage (w : Window) (song : Song) (page : string) : bool :=
  match pageUrl song with
  | Some u =>
      match URL_href w u (origin w) with
      | Some songUrl =>
          String.eqb songUrl (String.append (origin w) page) || String.eqb u page
      | None => false
      end
  | None => false
  end.

Definition getCurrentSong (w : Window) (songs : list Song) : option Song :=
  find (fun song => truthyUrl (pageUrl song) && samePage w song (pathname w))
       songs.

(** Body of the loop over [userBehavior.clicks]. *)
Definition scoreClick (published : list Song) (scores : jsobj * jsobj)
    (entry : string * Z) : jsobj * jsobj :=
  let (songTitle, count) := entry in
  match find (fun s => String.eqb (title s) songTitle) published with
  | Some song =>
      (bumpEach (tagsOf (genres song)) (count * 2) (fst scores),
       bumpEach (tagsOf (spiritualNeeds song)) count (snd scores))
  | None => scores
  end.

Definition scoreClicks (published : list Song) (clicked : jsobj)
    (scores : jsobj * jsobj) : jsobj * jsobj :=
  fold_left (scoreClick published) clicked scores.

(** The genre tags of the published songs selected by [onPage], flattened. *)
Definition pageGenres (onPage : Song -> bool) (published : list Song)
    : list string :=
  flat_map (fun song => tagsOf (genres song)) (filter onPage published).

(** Body of the loop over [userBehavior.timeSpent]. *)
Definition scoreTime (w : Window) (published : list Song)
    (genreScores : jsobj) (entry : string * Z) : jsobj :=
  let (page, time) := entry in
  bumpEach (pageGenres (fun song => samePage w song page) published)
           (time / 60) genreScores.

Definition scoreTimes (w : Window) (published : list Song) (spent : jsobj)
    (genreScores : jsobj) : jsobj :=
  fold_left (scoreTime w published) spent genreScores.

Definition scoreCurrentGenres (currentPageGenres : list string)
    (genreScores : jsobj) : jsobj :=
  if (0 <? List.length currentPageGenres)%nat
  then bumpEach currentPageGenres 3 genreScores
  else genreScores.

(** The two score objects when the three scoring loops are over. *)
Definition buildScores (w : Window) (songs : list Song) (b : UserBehavior)
    (currentPageGenres : list string) : jsobj * jsobj :=
  let published := publishedSongs songs in
  let scores := scoreClicks published (clicks b) ([], []) in
  (scoreCurrentGenres currentPageGenres
     (scoreTimes w published (timeSpent b) (fst scores)),
   snd scores).

(** [for (const genre in genreScores)]: the pair is
    [(finalTopGenre, highestGenreScore)], started at [(null, -1)]. *)
Definition topGenreStep (best : option string * Z) (entry : string * Z)
    : option string * Z :=
  if snd entry >? snd best then (Some (fst entry), snd entry) else best.

Definition topGenre (genreScores : jsobj) : option string * Z :=
  fold_left topGenreStep genreScores (None, -1).

(** [!finalTopGenre]: no genre, or the empty tag. *)
Definition noTopGenre (g : option string) : bool :=
  match g with
  | Some s => String.eqb s EmptyString
  | None => true
  end.

(** The total of a candidate: two [forEach] loops on one accumulator. *)
Definition songScore (genreScores needScores : jsobj) (song : Song) : Z :=
  let score :=
    fold_left (fun sc genre => sc + num genre genreScores)
              (tagsOf (genres song)) 0 in
  fold_left (fun sc need => sc + num need needScores)
            (tagsOf (spiritualNeeds song)) score.

(** [currentSong && song.title === currentSong.title] *)
Definition isCurrent (currentSong : option Song) (song : Song) : bool :=
  match currentSong with
  | Some c => String.eqb (title song) (title c)
  | None => false
  end.

(** Body of [matchingSongs.forEach]; the pair is [(bestSong, highestScore)]. *)
Definition bestSongStep (w : Window) (songs : list Song)
    (genreScores needScores : jsobj) (best : option Song * Z) (song : Song)
    : option Song * Z :=
  if isCurrent (getCurrentSong w songs) song then best
  else
    let score := songScore genreScores needScores song in
    if score >? snd best then (Some song, score) else best.

Definition bestSongLoop (w : Window) (songs : list Song)
    (genreScores needScores : jsobj) (matchingSongs : list Song)
    : option Song * Z :=
  fold_left (bestSongStep w songs genreScores needScores) matchingSongs
            (None, -1).

Definition pickRandomSong (songList : list Song) (currentSong : option Song)
    (r : Draw) : option Song :=
  let filteredSongs :=
    match currentSong with
    | Some c =>
        filter (fun song => negb (String.eqb (title song) (title c))) songList
    | None => songList
    end in
  if (List.length filteredSongs =? 0)%nat then None
  else nth_error filteredSongs (randomIndex r (List.length filteredSongs)).

(** [song.genres.toLowerCase().split(",").map(g => g.trim()).includes(g)] *)
Definition hasGenre (g : string) (song : Song) : bool :=
  existsb (String.eqb g) (tagsOf (genres song)).

Definition matchingSongs (g : string) (published : list Song) : list Song :=
  filter (hasGenre g) published.

Definition recommendSong (w : Window) (songs : list Song) (b : UserBehavior)
    (currentPageGenres : list string) (r : Draw) : option Song :=
  let published := publishedSongs songs in
  let (genreScores, needScores) := buildScores w songs b currentPageGenres in
  let finalTopGenre := fst (topGenre genreScores) in
  match finalTopGenre with
  | None => pickRandomSong published (getCurrentSong w songs) r
  | Some g =>
      if String.eqb g EmptyString
      then pickRandomSong published (getCurrentSong w songs) r
      else
        let matching := matchingSongs g published in
        if (List.length matching =? 0)%nat
        then pickRandomSong published (getCurrentSong w songs) r
        else
          match fst (bestSongLoop w songs genreScores needScores matching) with
          | Some bestSong => Some bestSong
          | None => pickRandomSong matching (getCurrentSong w songs) r
          end
  end.

(** ** Gating *)

Definition minPagesVisited : Z := 3.
Definition minSongsClicked : Z := 2.

(** What [triggerRecommendation] leaves behind: nothing, or a timer whose
    callback runs the scorer. *)
Inductive Trigger := NotEnough | Scheduled (delay : Z).

Definition triggerRecommendation (b : UserBehavior) : Trigger :=
  let totalPagesVisited := sumValues (pagesVisited b) in
  let totalSongsClicked := sumValues (clicks b) in
  if (totalPagesVisited <? minPagesVisited)
     || (totalSongsClicked <? minSongsClicked)
  then NotEnough
  else Scheduled 5000.

(** The timer callback: the scorer on the behaviour record of that moment;
    the card is built only for a truthy result. *)
Definition onTimer (w : Window) (songs : list Song) (b : UserBehavior)
    (currentPageGenres : list string) (r : Draw) : option Song :=
  recommendSong w songs b currentPageGenres r.

(** The recommendation that a call of [triggerRecommendation] leads to, the
    behaviour record being [later] when the timer fires. *)
Definition recommendationOf (w : Window) (songs : list Song)
    (b later : UserBehavior) (currentPageGenres : list string) (r : Draw)
    : option Song :=
  match triggerRecommendation b with
  | NotEnough => None
  | Scheduled _ => onTimer w songs later currentPageGenres r
  end.

(** ** The first variant: no current song, no gating *)

Module V0.

(** [publishedSongs.filter (song => song.pageUrl === page)] *)
Definition onPage (page : string) (song : Song) : bool :=
  match pageUrl song with
  | Some u => String.eqb u page
  | None => false
  end.

Definition scoreTime (published : list Song) (genreScores : jsobj)
    (entry : string * Z) : jsobj :=
  let (page, time) := entry in
  bumpEach (pageGenres (onPage page) published) (time / 60) genreScores.

Definition buildScores (songs : list Song) (b : UserBehavior)
    (currentPageGenres : list string) : jsobj * jsobj :=
  let published := publishedSongs songs in
  let scores := scoreClicks published (clicks b) ([], []) in
  (scoreCurrentGenres currentPageGenres
     (fold_left (scoreTime published) (timeSpent b) (fst scores)),
   snd scores).

Definition bestSongStep (genreScores needScores : jsobj)
    (best : option Song * Z) (song : Song) : option Song * Z :=
  let score := songScore genreScores needScores song in
  if score >? snd best then (Some song, score) else best.

Definition bestSongLoop (genreScores needScores : jsobj)
    (matching : list Song) : option Song * Z :=
  fold_left (bestSongStep genreScores needScores) matching (None, -1).

(** [list[Math.floor (Math.random () * list.length)]] *)
Definition randomOf (l : list Song) (r : Draw) : option Song :=
  nth_error l (randomIndex r (List.length l)).

Definition recommendSong (songs : list Song) (b : UserBehavior)
    (currentPageGenres : list string) (r : Draw) : option Song :=
  let published := publishedSongs songs in
  let (genreScores, needScores) := buildScores songs b currentPageGenres in
  match fst (topGenre genreScores) with
  | None => randomOf published r
  | Some g =>
      if String.eqb g EmptyString then randomOf published r
      else
        let matching := matchingSongs g published in
        if (List.length matching =? 0)%nat then randomOf published r
        else
          match fst (bestSongLoop genreScores needScores matching) with
          | Some bestSong => Some bestSong
          | None => randomOf matching r
          end
  end.

End V0.

(** ** Notions the properties are stated with *)

(** The sum of the scores of a list of tags, a tag without a score counting
    for 0. *)
Definition tagTotal (scores : jsobj) (tags : list string) : Z :=
  fold_right (fun tag acc => num tag scores + acc) 0 tags.

(** [x] is the first of the elements of [l] that are not skipped to reach
    the highest score: those before it score strictly less, those after it
    do not score more. *)
Definition firstBest {A : Type} (skip : A -> bool) (score : A -> Z)
    (l : list A) (x : A) : Prop :=
  exists l1 l2,
    l = l1 ++ x :: l2 /\ skip x = false
    /\ Forall (fun y => skip y = true \/ score y < score x) l1
    /\ Forall (fun y => skip y = true \/ score y <= score x) l2.

(** The sum of [f] over the entries of a list. *)
Definition sumOver {A : Type} (f : A -> Z) (l : list A) : Z :=
  fold_right (fun a acc => f a + acc) 0 l.

(** How often a tag is listed. *)
Definition occurrences (tag : string) (tags : list string) : Z :=
  Z.of_nat (count_occ string_dec tags tag).

(** What one entry of the clicks, of the time spent, is worth to a tag. *)
Definition clickGenreGain (published : list Song) (tag : string)
    (entry : string * Z) : Z :=
  match find (fun s => String.eqb (title s) (fst entry)) published with
  | Some song => snd entry * 2 * occurrences tag (tagsOf (genres song))
  | None => 0
  end.

Definition clickNeedGain (published : list Song) (tag : string)
    (entry : string * Z) : Z :=
  match find (fun s => String.eqb (title s) (fst entry)) published with
  | Some song => snd entry * occurrences tag (tagsOf (spiritualNeeds song))
  | None => 0
  end.

Definition timeGenreGain (w : Window) (published : list Song) (tag : string)
    (entry : string * Z) : Z :=
  snd entry / 60
  * occurrences tag
      (pageGenres (fun song => samePage w song (fst entry)) published).

(** ** Sessions and page loads *)

Inductive Event :=
  | PageVisit (w : Window)
  | SongClick (songTitle : string)
  | PageLeave (w : Window) (now pageStartTime : Z).

Definition track (b : UserBehavior) (e : Event) : UserBehavior :=
  match e with
  | PageVisit w => trackPageVisit w b
  | SongClick songTitle => trackClick songTitle b
  | PageLeave w now pageStartTime => trackTimeSpent w now pageStartTime b
  end.

(** The behaviour record after a sequence of tracked events. *)
Definition session (events : list Event) (b : UserBehavior) : UserBehavior :=
  fold_left track events b.

Definition isVisit (e : Event) : bool :=
  match e with PageVisit _ => true | _ => false end.

Definition isClick (e : Event) : bool :=
  match e with SongClick _ => true | _ => false end.

(** [initialize], from the behaviour record that [loadUserBehavior] has
    restored: the visit is counted, then the gate is looked at. *)
Definition initialize (w : Window) (loaded : UserBehavior)
    : UserBehavior * Trigger :=
  let b := trackPageVisit w loaded in
  (b, triggerRecommendation b).


(** The number of commas of a string. *)
Fixpoint commas (s : string) : nat :=
  match s with
  | EmptyString => 0%nat
  | String c r => if Ascii.eqb c ","%char then S (commas r) else commas r
  end.

(** ** The click handler *)

(** What the handler reads of an element. *)
Record Element := mkElement {
  tagName : string;
  href : option string
}.

(** The walk from [event.target] up to the first [A] element; [path] lists
    the target and its ancestors below [document.body], innermost first.
    The walk that reaches the body ends on no anchor. *)
Definition nearestAnchor (path : list Element) : option Element :=
  find (fun e => String.eqb (tagName e) "A") path.

(** The text that [new URL] makes of [s.pageUrl]: a song without the
    property has it [undefined]. *)
Definition urlText (u : option string) : string :=
  match u with
  | Some s => s
  | None => "undefined"
  end.

(** The test of [songs.find] in the handler, inside its [try]. *)
Definition sameLink (w : Window) (link : string) (s : Song) : bool :=
  match URL_href w (urlText (pageUrl s)) (origin w) with
  | Some songUrl =>
      match URL_href w link (origin w) with
      | Some linkUrl => String.eqb songUrl linkUrl
      | None => false
      end
  | None => false
  end.

Definition onClick (w : Window) (songs : list Song) (path : list Element)
    (b : UserBehavior) : UserBehavior :=
  match nearestAnchor path with
  | Some anchor =>
      match href anchor with
      | Some link =>
          if String.eqb link EmptyString then b
          else match find (sameLink w link) songs with
               | Some song => trackClick (title song) b
               | None => b
               end
      | None => b
      end
  | None => b
  end.

(** The handler of the first variant compares the attribute with the
    song's URL as they are written. *)
Definition onClickV0 (songs : list Song) (path : list Element)
    (b : UserBehavior) : UserBehavior :=
  match nearestAnchor path with
  | Some anchor =>
      match href anchor with
      | Some link =>
          if String.eqb link EmptyString then b
          else match find (fun s => match pageUrl s with
                                    | Some u => String.eqb u link
                                    | None => false
                                    end) songs with
               | Some song => trackClick (title song) b
               | None => b
               end
      | None => b
      end
  | None => b
  end.

(** ** The card and the session storage *)

Definition Storage := list (string * string).

Fixpoint getItem (k : string) (st : Storage) : option string :=
  match st with
  | [] => None
  | (k', v) :: r => if String.eqb k k' then Some v else getItem k r
  end.

Fixpoint setItem (k v : string) (st : Storage) : Storage :=
  match st with
  | [] => [(k, v)]
  | (k', v') :: r =>
      if String.eqb k k' then (k', v) :: r else (k', v') :: setItem k v r
  end.

Definition removeItem (k : string) (st : Storage) : Storage :=
  filter (fun kv => negb (String.eqb k (fst kv))) st.

(** The session storage, and the songs for which a card was built, in the
    order of the cards. *)
Record Session := mkSession {
  sessionStorage : Storage;
  cards : list Song
}.

Definition shownKey : string := "songRecommendationShown".
Definition behaviorKey : string := "userBehavior".

(** A stored item is truthy when it is there and is not the empty string. *)
Definition truthyItem (v : option string) : bool :=
  match v with
  | Some s => negb (String.eqb s EmptyString)
  | None => false
  end.

Definition showRecommendation (recommendedSong : Song) (s : Session)
    : Session :=
  if truthyItem (getItem shownKey (sessionStorage s)) then s
  else mkSession (setItem shownKey "true" (sessionStorage s))
                 (cards s ++ [recommendedSong]).

(** The flag that [showRecommendation] tests is set. *)
Definition flagSet (s : Session) : Prop :=
  truthyItem (getItem shownKey (sessionStorage s)) = true.

(** The close button: the card leaves the page and the flag is set again. *)
Definition closeCard (s : Session) : Session :=
  mkSession (setItem shownKey "true" (sessionStorage s)) (cards s).

Definition resetRecommendationFlag (s : Session) : Session :=
  mkSession (removeItem shownKey (sessionStorage s)) (cards s).

Definition storeBehavior (text : string) (s : Session) : Session :=
  mkSession (setItem behaviorKey text (sessionStorage s)) (cards s).

(** [sessionStorage.setItem ("userBehavior", JSON.stringify (userBehavior))],
    the serialisation being the browser's. *)
Definition saveUserBehavior (stringify : UserBehavior -> string)
    (b : UserBehavior) (s : Session) : Session :=
  storeBehavior (stringify b) s.

(** What can happen to the storage and the cards in a session: a
    recommendation to show, the close button, a save of the behaviour record
    (as the text it is serialised to), the reset of the flag. *)
Inductive Action :=
  | Show (recommendedSong : Song)
  | Close
  | Save (text : string)
  | Reset.

Definition act (s : Session) (a : Action) : Session :=
  match a with
  | Show recommendedSong => showRecommendation recommendedSong s
  | Close => closeCard s
  | Save text => storeBehavior text s
  | Reset => resetRecommendationFlag s
  end.

Definition isReset (a : Action) : bool :=
  match a with Reset => true | _ => false end.

(** ** The genres of the page *)

#[local] Set Warnings "-register-all".

(** A JSON value as [JSON.parse] returns it; an object has each of its
    members once, and a number that is not an integer behaves here as any
    non-zero one. *)
Inductive Json :=
  | JNull
  | JBool (b : bool)
  | JNumber (n : Z)
  | JString (s : string)
  | JArray (items : list Json)
  | JObject (members : list (string * Json)).

Fixpoint member (k : string) (members : list (string * Json)) : option Json :=
  match members with
  | [] => None
  | (k', v) :: r => if String.eqb k k' then Some v else member k r
  end.

Definition truthyJson (v : Json) : bool :=
  match v with
  | JNull => false
  | JBool b => b
  | JNumber n => negb (n =? 0)
  | JString s => negb (String.eqb s EmptyString)
  | JArray _ => true
  | JObject _ => true
  end.

(** [g.toLowerCase ()]: only a string has the method; [None] is the
    TypeError. *)
Definition lowerOf (g : Json) : option string :=
  match g with
  | JString s => Some (toLowerCase s)
  | _ => None
  end.

(** [items.map (g => g.toLowerCase ())]: thrown out of at the first item
    that is not a string. *)
Fixpoint lowerAll (items : list Json) : option (list string) :=
  match items with
  | [] => Some []
  | g :: r =>
      match lowerOf g with
      | Some s =>
          match lowerAll r with
          | Some l => Some (s :: l)
          | None => None
          end
      | None => None
      end
  end.

(** The body of the [try] for one script, [None] when it throws: [data] is
    the parsed text, [None] where [JSON.parse] throws. *)
Definition genresOfScript (data : option Json) : option (list string) :=
  match data with
  | None => None
  | Some JNull => None
  | Some (JObject members) =>
      match member "genre" members with
      | Some g =>
          if truthyJson g then
            match g with
            | JArray items => lowerAll items
            | _ => match lowerOf g with
                   | Some s => Some [s]
                   | None => None
                   end
            end
          else Some []
      | None => Some []
      end
  | Some _ => Some []
  end.

(** [getGenresFromSchema] over the scripts of the page, in document order;
    a script that throws is logged and adds nothing. *)
Definition getGenresFromSchema (scripts : list (option Json)) : list string :=
  flat_map (fun data => match genresOfScript data with
                        | Some l => l
                        | None => []
                        end) scripts.

(** ** The search *)

(** The texts of a catalog entry that the search reads besides those of
    [Song]. *)
Record Entry := mkEntry {
  song : Song;
  spiritualMessage : string;
  keywords : string
}.

(** [s.includes (sub)] *)
Fixpoint includes (sub s : string) : bool :=
  if String.prefix sub s then true
  else match s with
       | EmptyString => false
       | String _ r => includes sub r
       end.

(** The five texts of an entry that the search looks into. *)
Definition searchedTexts (e : Entry) : list string :=
  [title (song e); genres (song e); spiritualMessage e;
   spiritualNeeds (song e); keywords e].

(** The test of [searchSongs] for one song.  The search lowers texts that
    are shown to the visitor, in any script, so [String.prototype.toLowerCase]
    is taken as it is in the browser: the argument [lower]. *)
Definition matchesQuery (lower : string -> string) (input : string)
    (e : Entry) : bool :=
  includes input (lower (title (song e)))
  || includes input (lower (genres (song e)))
  || includes input (lower (spiritualMessage e))
  || includes input (lower (spiritualNeeds (song e)))
  || includes input (lower (keywords e)).

(** The songs for which [searchSongs] appends a card, in the order of the
    cards; [value] is the text of the input field. *)
Definition searchSongs (lower : string -> string) (value : string)
    (catalog : list Entry) : list Entry :=
  let input := lower value in
  if String.eqb input EmptyString then []
  else filter (matchesQuery lower input) catalog.

(** What the events of a session amount to for one page or one title. *)
Definition visitsOf (page : string) (events : list Event) : Z :=
  sumOver (fun e => match e with
                    | PageVisit w => if String.eqb page (pathname w) then 1 else 0
                    | _ => 0
                    end) events.

Definition clicksOf (songTitle : string) (events : list Event) : Z :=
  sumOver (fun e => match e with
                    | SongClick t => if String.eqb songTitle t then 1 else 0
                    | _ => 0
                    end) events.

Definition secondsOn (page : string) (events : list Event) : Z :=
  sumOver (fun e => match e with
                    | PageLeave w now pageStartTime =>
                        if String.eqb page (pathname w)
                        then (now - pageStartTime) / 1000 else 0
                    | _ => 0
                    end) events.


(** ** The card of the variant that waits a day *)

Definition lastShownKey : string := "lastRecommendationShown".

(** [24 * 60 * 60 * 1000] *)
Definition dayMs : Z := 24 * 60 * 60 * 1000.

(** The later variant keeps the instant of the last card instead of a flag:
    [toText] is [n.toString ()] and [parseInt] the browser's, [None] being
    NaN, with which every comparison is false; [now] is [Date.now ()]. *)
Definition showRecommendationAt (toText : Z -> string)
    (parseInt : string -> option Z) (now : Z) (recommendedSong : Song)
    (s : Session) : Session :=
  let lastShown := getItem lastShownKey (sessionStorage s) in
  let recent :=
    match lastShown with
    | Some text =>
        match parseInt text with
        | Some t => now - t <? dayMs
        | None => false
        end
    | None => false
    end in
  if truthyItem lastShown && recent then s
  else mkSession (setItem lastShownKey (toText now) (sessionStorage s))
                 (cards s ++ [recommendedSong]).


(** ** Sample data *)

(** URL resolution on the sample site: a path is appended to the base, any
    other reference is taken as absolute. *)
Definition demoHref (u base : string) : option string :=
  match u with
  | String "/"%char _ => Some (String.append base u)
  | _ => Some u
  end.

Definition demoWindow (path : string) : Window :=
  mkWindow "https://songs.example" path demoHref.

(** Decimal writing and reading of an integer, as [toString] and [parseInt]
    do on the texts that [toString] writes. *)
Definition demoToText (n : Z) : string :=
  NilZero.string_of_int (Z.to_int n).

Definition demoParseInt (text : string) : option Z :=
  option_map Z.of_int (NilZero.int_of_string text).

Definition songA : Song :=
  mkSong "Song A" "praise, worship" "joy" (Some "/songs/a").
Definition songB : Song :=
  mkSong "Song B" "Worship , Lament" "comfort, joy" (Some "/songs/b").
Definition songHope : Song :=
  mkSong "Song H" "hope" "peace" (Some "/songs/a").
Definition songDraft : Song :=
  mkSong "Draft" "praise" "joy" None.

(** * Properties *)

(** ** Objects *)

Lemma obj_has_get k o : obj_has k o = false <-> obj_get k o = None.
Proof.
  induction o as [|[k' v'] r IH]; simpl; [tauto|].
  destruct (String.eqb k k'); simpl; [split; discriminate | exact IH].
Qed.

Lemma obj_get_update_same k v o :
  obj_has k o = true -> obj_get k (obj_update k v o) = Some v.
Proof.
  induction o as [|[k' v'] r IH]; simpl; [discriminate|].
  destruct (String.eqb k k') eqn:E; simpl; rewrite E; auto.
Qed.

Lemma obj_get_update_other k k' v o :
  k <> k' -> obj_get k' (obj_update k v o) = obj_get k' o.
Proof.
  intros Hne. induction o as [|[k1 v1] r IH]; simpl; [reflexivity|].
  destruct (String.eqb k k1) eqn:E; simpl.
  - apply String.eqb_eq in E. subst k1.
    destruct (String.eqb k' k) eqn:E'; [|reflexivity].
    apply String.eqb_eq in E'. congruence.
  - rewrite IH. reflexivity.
Qed.

Lemma obj_get_insertIndex_same i k v o :
  obj_has k o = false -> obj_get k (insertIndex i k v o) = Some v.
Proof.
  induction o as [|[k' v'] r IH]; simpl; intros H.
  - rewrite String.eqb_refl. reflexivity.
  - apply orb_false_iff in H. destruct H as [E H].
    destruct (arrayIndex k') as [j|]; [destruct (j <? i)%N|]; simpl;
      rewrite ?String.eqb_refl, ?E; auto.
Qed.

Lemma obj_get_insertIndex_other i k k' v o :
  k <> k' -> obj_get k' (insertIndex i k v o) = obj_get k' o.
Proof.
  intros Hne. apply not_eq_sym, String.eqb_neq in Hne.
  induction o as [|[k1 v1] r IH]; simpl.
  - rewrite Hne. reflexivity.
  - destruct (arrayIndex k1) as [j|]; [destruct (j <? i)%N|]; simpl;
      rewrite ?Hne, ?IH; reflexivity.
Qed.

Lemma obj_get_append_same k v o :
  obj_has k o = false -> obj_get k (o ++ [(k, v)]) = Some v.
Proof.
  induction o as [|[k' v'] r IH]; simpl; intros H.
  - rewrite String.eqb_refl. reflexivity.
  - apply orb_false_iff in H. destruct H as [E H]. rewrite E. auto.
Qed.

Lemma obj_get_append_other k k' v o :
  k <> k' -> obj_get k' (o ++ [(k, v)]) = obj_get k' o.
Proof.
  intros Hne. apply not_eq_sym, String.eqb_neq in Hne.
  induction o as [|[k1 v1] r IH]; simpl.
  - rewrite Hne. reflexivity.
  - rewrite IH. reflexivity.
Qed.

Lemma obj_get_set_same k v o : obj_get k (obj_set k v o) = Some v.
Proof.
  unfold obj_set, obj_create. destruct (obj_has k o) eqn:H.
  - apply obj_get_update_same, H.
  - destruct (arrayIndex k).
    + apply obj_get_insertIndex_same, H.
    + apply obj_get_append_same, H.
Qed.

Lemma obj_get_set_other k k' v o :
  k <> k' -> obj_get k' (obj_set k v o) = obj_get k' o.
Proof.
  intros Hne. unfold obj_set, obj_create. destruct (obj_has k o).
  - apply obj_get_update_other, Hne.
  - destruct (arrayIndex k).
    + apply obj_get_insertIndex_other, Hne.
    + apply obj_get_append_other, Hne.
Qed.

(** Every entry of [obj_set k v o] is the new one or an old one. *)
Lemma in_obj_update k v o e :
  In e (obj_update k v o) -> snd e = v \/ In e o.
Proof.
  induction o as [|[k1 v1] r IH]; simpl; [tauto|].
  destruct (String.eqb k k1); simpl; intros [H|H]; subst; simpl; auto.
  destruct (IH H); auto.
Qed.

Lemma in_insertIndex i k v o e :
  In e (insertIndex i k v o) -> snd e = v \/ In e o.
Proof.
  induction o as [|[k1 v1] r IH]; simpl.
  - intros [H|[]]. subst. auto.
  - destruct (arrayIndex k1) as [j|]; [destruct (j <? i)%N|]; simpl.
    + intros [H|H]; auto. destruct (IH H); auto.
    + intros [H|H]; subst; auto.
    + intros [H|H]; subst; auto.
Qed.

Lemma in_obj_set k v o e : In e (obj_set k v o) -> snd e = v \/ In e o.
Proof.
  unfold obj_set, obj_create. destruct (obj_has k o).
  - apply in_obj_update.
  - destruct (arrayIndex k).
    + apply in_insertIndex.
    + intros H. apply in_app_or in H. destruct H as [H|[H|[]]]; subst; auto.
Qed.

Lemma obj_get_in k v o : obj_get k o = Some v -> In (k, v) o.
Proof.
  induction o as [|[k1 v1] r IH]; simpl; [discriminate|].
  destruct (String.eqb k k1) eqn:E; intros H.
  - apply String.eqb_eq in E. inversion H. subst. auto.
  - auto.
Qed.

Lemma nonNegative_set k v o :
  nonNegative o -> 0 <= v -> nonNegative (obj_set k v o).
Proof.
  unfold nonNegative. rewrite !Forall_forall. intros Ho Hv e He.
  destruct (in_obj_set _ _ _ _ He) as [->|H]; auto.
Qed.

Lemma nonNegative_num k o : nonNegative o -> 0 <= num k o.
Proof.
  unfold nonNegative, num. rewrite Forall_forall. intros Ho.
  destruct (obj_get k o) as [v|] eqn:E; [|lia].
  apply obj_get_in in E. apply (Ho _ E).
Qed.

Lemma num_bump k k' d o :
  num k' (bump k d o) = num k' o + (if String.eqb k' k then d else 0).
Proof.
  unfold bump. destruct (String.eqb k' k) eqn:E.
  - apply String.eqb_eq in E. subst k'. unfold num at 1.
    rewrite obj_get_set_same. reflexivity.
  - apply String.eqb_neq in E. unfold num at 1 3.
    rewrite obj_get_set_other by congruence. lia.
Qed.

(** A [forEach] of bumps adds [d] once for each occurrence of the key. *)
Lemma num_bumpEach g keys d o :
  num g (bumpEach keys d o)
  = num g o + d * Z.of_nat (count_occ string_dec keys g).
Proof.
  unfold bumpEach. revert o.
  induction keys as [|k keys IH]; intros o; simpl; [lia|].
  rewrite IH, num_bump. destruct (string_dec k g) as [->|Hne].
  - rewrite String.eqb_refl. lia.
  - destruct (String.eqb g k) eqn:E; [apply String.eqb_eq in E; congruence|].
    lia.
Qed.

Lemma nonNegative_bump k d o :
  nonNegative o -> 0 <= d -> nonNegative (bump k d o).
Proof.
  intros Ho Hd. apply nonNegative_set; [assumption|].
  pose proof (nonNegative_num k o Ho). lia.
Qed.

Lemma nonNegative_bumpEach keys d o :
  nonNegative o -> 0 <= d -> nonNegative (bumpEach keys d o).
Proof.
  intros Ho Hd. unfold bumpEach. revert o Ho.
  induction keys as [|k keys IH]; intros o Ho; simpl; [assumption|].
  apply IH, nonNegative_bump; assumption.
Qed.

(** Assignments keep the keys unique, so that the value met by an
    enumeration of the object is the value found under its key. *)
Lemma obj_update_keys k v o : map fst (obj_update k v o) = map fst o.
Proof.
  induction o as [|[k1 v1] r IH]; simpl; [reflexivity|].
  destruct (String.eqb k k1); simpl; congruence.
Qed.

Lemma insertIndex_perm i k v o : Permutation ((k, v) :: o) (insertIndex i k v o).
Proof.
  induction o as [|[k1 v1] r IH]; simpl; [reflexivity|].
  destruct (arrayIndex k1) as [j|]; [destruct (j <? i)%N|]; try reflexivity.
  rewrite perm_swap. apply perm_skip, IH.
Qed.

Lemma obj_create_perm k v o : Permutation ((k, v) :: o) (obj_create k v o).
Proof.
  unfold obj_create. destruct (arrayIndex k).
  - apply insertIndex_perm.
  - apply Permutation_cons_append.
Qed.

Lemma obj_has_keys k o : obj_has k o = false -> ~ In k (map fst o).
Proof.
  induction o as [|[k1 v1] r IH]; simpl; [tauto|].
  intros H. apply orb_false_iff in H. destruct H as [E H].
  apply String.eqb_neq in E. intros [->|Hin]; [congruence|]. apply (IH H Hin).
Qed.

Lemma uniqueKeys_set k v o : uniqueKeys o -> uniqueKeys (obj_set k v o).
Proof.
  unfold uniqueKeys, obj_set. intros Hu. destruct (obj_has k o) eqn:H.
  - rewrite obj_update_keys. assumption.
  - apply (Permutation_NoDup (Permutation_map fst (obj_create_perm k v o))).
    simpl. constructor; [apply obj_has_keys, H|assumption].
Qed.

Lemma uniqueKeys_bumpEach keys d o :
  uniqueKeys o -> uniqueKeys (bumpEach keys d o).
Proof.
  unfold bumpEach. revert o.
  induction keys as [|k keys IH]; intros o Ho; simpl; [assumption|].
  apply IH, uniqueKeys_set, Ho.
Qed.

Lemma uniqueKeys_entry k v o :
  uniqueKeys o -> In (k, v) o -> obj_get k o = Some v.
Proof.
  unfold uniqueKeys. induction o as [|[k1 v1] r IH]; simpl; [tauto|].
  intros Hu [H|H]; inversion Hu as [|? ? Hnotin Hr]; subst.
  - inversion H; subst. rewrite String.eqb_refl. reflexivity.
  - destruct (String.eqb k k1) eqn:E; [|apply IH; assumption].
    apply String.eqb_eq in E. subst k1. exfalso. apply Hnotin.
    apply (in_map fst _ _ H).
Qed.

(** ** Tracking keeps the behaviour record well formed *)

Lemma countsGrow_set k v' o :
  (forall v, obj_get k o = Some v -> v <= v') -> countsGrow o (obj_set k v' o).
Proof.
  intros Hk k1 v1 H1. destruct (string_dec k k1) as [->|Hne].
  - exists v'. rewrite obj_get_set_same. auto.
  - exists v1. rewrite obj_get_set_other by assumption. split; [assumption|lia].
Qed.

Lemma countsGrow_refl o : countsGrow o o.
Proof. intros k v H. exists v. split; [assumption|lia]. Qed.

Lemma countsGrow_trans o1 o2 o3 :
  countsGrow o1 o2 -> countsGrow o2 o3 -> countsGrow o1 o3.
Proof.
  intros H12 H23 k v H. destruct (H12 _ _ H) as (v2 & H2 & L2).
  destruct (H23 _ _ H2) as (v3 & H3 & L3). exists v3. split; [assumption|lia].
Qed.

Lemma num_of_get k o v : obj_get k o = Some v -> num k o = v.
Proof. unfold num. intros ->. reflexivity. Qed.

Lemma trackPageVisit_grows w b : behaviorGrows b (trackPageVisit w b).
Proof.
  repeat split; simpl; try apply countsGrow_refl.
  apply countsGrow_set. intros v H. rewrite (num_of_get _ _ _ H). lia.
Qed.

Lemma trackClick_grows t b : behaviorGrows b (trackClick t b).
Proof.
  repeat split; simpl; try apply countsGrow_refl.
  destruct (obj_get t (clicks b)) as [n|] eqn:E.
  - destruct (n =? 0) eqn:Z0; apply countsGrow_set; intros v H;
      rewrite E in H; inversion H; subst; [apply Z.eqb_eq in Z0|]; lia.
  - apply countsGrow_set. intros v H. congruence.
Qed.

Lemma elapsed_nonneg now start : start <= now -> 0 <= (now - start) / 1000.
Proof. intros H. apply Z.div_pos; lia. Qed.

Lemma trackTimeSpent_grows w now start b :
  start <= now -> behaviorGrows b (trackTimeSpent w now start b).
Proof.
  intros Hle. pose proof (elapsed_nonneg _ _ Hle).
  repeat split; simpl; try apply countsGrow_refl.
  apply countsGrow_set. intros v Hv. rewrite (num_of_get _ _ _ Hv). lia.
Qed.

Lemma tracks_grows w b b' : tracks w b b' -> behaviorGrows b b'.
Proof.
  intros H. inversion H; subst.
  - apply trackPageVisit_grows.
  - apply trackClick_grows.
  - apply trackTimeSpent_grows. assumption.
Qed.

Lemma tracks_wellFormed w b b' : tracks w b b' -> wellFormed b -> wellFormed b'.
Proof.
  intros H (Hp & Hc & Ht). inversion H; subst; repeat split; simpl; auto.
  - apply nonNegative_set; [assumption|].
    pose proof (nonNegative_num (pathname w) _ Hp). lia.
  - destruct (obj_get songTitle (clicks b)) as [n|] eqn:E.
    + destruct (n =? 0); apply nonNegative_set; try assumption; try lia.
      pose proof (nonNegative_num songTitle _ Hc) as Hn.
      rewrite (num_of_get _ _ _ E) in Hn. lia.
    + apply nonNegative_set; [assumption|lia].
  - apply nonNegative_set; [assumption|].
    pose proof (nonNegative_num (pathname w) _ Ht).
    pose proof (elapsed_nonneg _ _ H0). lia.
Qed.

(** C9.  Each tracking operation (a page visit, a click, the time spent on
    unload when the measured time is not negative) leaves every counter of
    the three mappings at least as large as it was, and keeps all counters
    non-negative when they were. *)
Theorem tracking_preserves_invariant w b b' :
  tracks w b b' ->
  behaviorGrows b b' /\ (wellFormed b -> wellFormed b').
Proof.
  intros H. split.
  - apply (tracks_grows w), H.
  - apply (tracks_wellFormed w), H.
Qed.

Lemma tracking_preserves_invariant_witness :
  let w := demoWindow "/songs/a" in
  let b := mkBehavior [("/songs/a", 2)] [("Song A", 1)] [] in
  behaviorGrows b (trackTimeSpent w 61500 1000 (trackClick "Song A" b))
  /\ trackTimeSpent w 61500 1000 (trackClick "Song A" b)
     = mkBehavior [("/songs/a", 2)] [("Song A", 2)] [("/songs/a", 60)].
Proof.
  intros w b. split; [|reflexivity].
  destruct (tracking_preserves_invariant w b (trackClick "Song A" b)
              (tracks_click w "Song A" b)) as [(P1 & C1 & T1) _].
  destruct (tracking_preserves_invariant w (trackClick "Song A" b)
              (trackTimeSpent w 61500 1000 (trackClick "Song A" b))
              (tracks_time w 61500 1000 _ ltac:(lia))) as [(P2 & C2 & T2) _].
  split; [|split].
  - exact (countsGrow_trans _ _ _ P1 P2).
  - exact (countsGrow_trans _ _ _ C1 C2).
  - exact (countsGrow_trans _ _ _ T1 T2).
Defined.

(** Over a whole session, whatever pages it goes through. *)
Lemma session_invariant b b' :
  clos_refl_trans UserBehavior sessionStep b b' ->
  behaviorGrows b b' /\ (wellFormed b -> wellFormed b').
Proof.
  induction 1 as [b b' [w H] | b | b1 b2 b3 _ [G12 W12] _ [G23 W23]].
  - split; [apply (tracks_grows w), H | apply (tracks_wellFormed w), H].
  - split; [|auto]. repeat split; apply countsGrow_refl.
  - split; [|auto]. destruct G12 as (P1 & C1 & T1), G23 as (P2 & C2 & T2).
    split; [|split].
    + exact (countsGrow_trans _ _ _ P1 P2).
    + exact (countsGrow_trans _ _ _ C1 C2).
    + exact (countsGrow_trans _ _ _ T1 T2).
Qed.

(** ** Gating *)

Lemma fold_add_shift l a : fold_left (fun x y => x + y) l a
                           = a + fold_left (fun x y => x + y) l 0.
Proof.
  revert a. induction l as [|x l IH]; intros a; simpl; [lia|].
  rewrite IH, (IH x). lia.
Qed.

(** The [reduce] of the gate is the sum of the stored counts. *)
Lemma sumValues_cons k v o : sumValues ((k, v) :: o) = v + sumValues o.
Proof. unfold sumValues. simpl. apply fold_add_shift. Qed.

(** C8.  With the thresholds met the timer that runs the scorer is set; when
    the visits sum to less than 3 or the clicks to less than 2 it is not, and
    no recommendation comes out of the call. *)
Theorem gating_thresholds b :
  (3 <= sumValues (pagesVisited b) /\ 2 <= sumValues (clicks b) ->
   triggerRecommendation b = Scheduled 5000)
  /\ (sumValues (pagesVisited b) < 3 \/ sumValues (clicks b) < 2 ->
      triggerRecommendation b = NotEnough
      /\ forall w songs later currentPageGenres r,
           recommendationOf w songs b later currentPageGenres r = None).
Proof.
  unfold recommendationOf, triggerRecommendation, minPagesVisited,
    minSongsClicked.
  split.
  - intros [Hp Hc].
    destruct (Z.ltb_spec (sumValues (pagesVisited b)) 3); [lia|].
    destruct (Z.ltb_spec (sumValues (clicks b)) 2); [lia|]. reflexivity.
  - intros H.
    destruct (Z.ltb_spec (sumValues (pagesVisited b)) 3); simpl; auto.
    destruct (Z.ltb_spec (sumValues (clicks b)) 2); simpl; auto. lia.
Qed.

Lemma gating_thresholds_witness :
  triggerRecommendation
    (mkBehavior [("/", 2); ("/songs/a", 1)] [("Song A", 1); ("Song B", 1)] [])
  = Scheduled 5000
  /\ triggerRecommendation
       (mkBehavior [("/", 2); ("/songs/a", 1)] [("Song A", 1)] [])
     = NotEnough.
Proof.
  split.
  - apply (gating_thresholds
             (mkBehavior [("/", 2); ("/songs/a", 1)]
                         [("Song A", 1); ("Song B", 1)] [])).
    vm_compute. split; discriminate.
  - apply (gating_thresholds
             (mkBehavior [("/", 2); ("/songs/a", 1)] [("Song A", 1)] [])).
    right. vm_compute. reflexivity.
Defined.

(** ** The random fallback *)

Lemma randomIndex_lt r len : (0 < len)%nat -> (randomIndex r len < len)%nat.
Proof.
  intros H. unfold randomIndex. apply Nat.Div0.div_lt_upper_bound. nia.
Qed.

(** Every index below the length is hit by some draw. *)
Lemma randomIndex_onto i len :
  (i < len)%nat -> randomIndex (mkDraw i (len - i - 1)) len = i.
Proof.
  intros H. unfold randomIndex. simpl.
  replace (i + (len - i - 1) + 1)%nat with len by lia.
  apply Nat.div_mul. lia.
Qed.

(** The songs [pickRandomSong] draws from. *)
Lemma filteredSongs_eligible pool cur :
  match cur with
  | Some c => filter (fun song => negb (String.eqb (title song) (title c))) pool
  | None => pool
  end = filter (fun song => negb (isCurrent cur song)) pool.
Proof.
  destruct cur as [c|]; simpl; [reflexivity|].
  induction pool as [|s pool IH]; simpl; congruence.
Qed.

Lemma pickRandomSong_eligible pool cur r :
  pickRandomSong pool cur r
  = let eligible := filter (fun song => negb (isCurrent cur song)) pool in
    nth_error eligible (randomIndex r (List.length eligible)).
Proof.
  unfold pickRandomSong. rewrite filteredSongs_eligible. simpl.
  destruct (filter _ pool) as [|s l] eqn:E; simpl; [|reflexivity].
  destruct (randomIndex r 0); reflexivity.
Qed.

Lemma pickRandomSong_none pool cur r :
  pickRandomSong pool cur r = None
  <-> forall s, In s pool -> isCurrent cur s = true.
Proof.
  rewrite pickRandomSong_eligible. simpl.
  set (eligible := filter _ pool). split.
  - intros H s Hs. destruct (isCurrent cur s) eqn:E; [reflexivity|].
    assert (Hin : In s eligible) by (apply filter_In; rewrite E; auto).
    apply nth_error_None in H.
    destruct eligible as [|e l]; [destruct Hin|].
    pose proof (randomIndex_lt r (List.length (e :: l))) as Hlt.
    simpl in *. lia.
  - intros H. destruct eligible as [|e l] eqn:E.
    + destruct (randomIndex r _); reflexivity.
    + assert (Hin : In e eligible) by (rewrite E; left; reflexivity).
      apply filter_In in Hin. destruct Hin as [Hp Hc].
      rewrite (H _ Hp) in Hc. discriminate.
Qed.

Lemma pickRandomSong_some pool cur r s :
  pickRandomSong pool cur r = Some s -> In s pool /\ isCurrent cur s = false.
Proof.
  rewrite pickRandomSong_eligible. simpl. intros H.
  apply nth_error_In, filter_In in H. destruct H as [Hp Hc].
  split; [assumption|]. destruct (isCurrent cur s); [discriminate|reflexivity].
Qed.

Lemma pickRandomSong_reaches pool cur s :
  In s pool -> isCurrent cur s = false ->
  exists r, pickRandomSong pool cur r = Some s.
Proof.
  intros Hp Hc.
  assert (Hin : In s (filter (fun song => negb (isCurrent cur song)) pool))
    by (apply filter_In; rewrite Hc; auto).
  destruct (In_nth_error _ _ Hin) as [i Hi].
  assert (Hlt : (i < List.length
                       (filter (fun song => negb (isCurrent cur song)) pool))%nat)
    by (apply nth_error_Some; congruence).
  exists (mkDraw i (List.length
                      (filter (fun song => negb (isCurrent cur song)) pool)
                    - i - 1)).
  rewrite pickRandomSong_eligible. simpl.
  rewrite randomIndex_onto by assumption. assumption.
Qed.

(** C5, as the code has it.  The fallback always leaves out the songs that
    carry the current song's title: it returns null exactly when no song of
    the pool is left after that, any song it returns is a song of the pool
    other than the current one, and every such song is returned for some
    draw. *)
Theorem fallback_excludes_current pool cur r :
  (pickRandomSong pool cur r = None
   <-> forall s, In s pool -> isCurrent cur s = true)
  /\ (forall s, pickRandomSong pool cur r = Some s ->
                In s pool /\ isCurrent cur s = false)
  /\ (forall s, In s pool -> isCurrent cur s = false ->
                exists r', pickRandomSong pool cur r' = Some s).
Proof.
  split; [apply pickRandomSong_none|].
  split; [apply pickRandomSong_some|apply pickRandomSong_reaches].
Qed.

Lemma fallback_excludes_current_witness :
  pickRandomSong [songA; songB] (Some songA) (mkDraw 0 0) = Some songB
  /\ In songB [songA; songB] /\ isCurrent (Some songA) songB = false.
Proof.
  split; [reflexivity|].
  apply (fallback_excludes_current [songA; songB] (Some songA) (mkDraw 0 0)).
  reflexivity.
Defined.

(** The claim C5 fails where the matching songs are the current song alone:
    the pool is not empty and the fallback, and the scorer with it, returns
    null. *)
Lemma fallback_keeps_current_counterexample :
  getCurrentSong (demoWindow "/songs/a") [songA] = Some songA
  /\ matchingSongs "praise" (publishedSongs [songA]) = [songA]
  /\ pickRandomSong [songA] (Some songA) (mkDraw 0 0) = None
  /\ recommendSong (demoWindow "/songs/a") [songA]
       (mkBehavior [] [("Song A", 3)] []) [] (mkDraw 0 0) = None.
Proof. repeat split; reflexivity. Qed.

(** ** No published song *)

Lemma publishedSongs_nil songs :
  (forall s, In s songs -> truthyUrl (pageUrl s) = false) ->
  publishedSongs songs = [].
Proof.
  intros H. unfold publishedSongs.
  induction songs as [|s songs IH]; simpl; [reflexivity|].
  rewrite (H s) by (left; reflexivity). apply IH.
  intros s' Hs'. apply H. right. assumption.
Qed.

Lemma pickRandomSong_nil cur r : pickRandomSong [] cur r = None.
Proof. apply pickRandomSong_none. intros s []. Qed.

Lemma randomOf_nil r : V0.randomOf [] r = None.
Proof. unfold V0.randomOf. destruct (randomIndex r _); reflexivity. Qed.

(** C6.  When no song of the catalog has a non-empty URL the scorer returns
    no song, whatever the behaviour record, the genres of the page and the
    draw; so does the first variant. *)
Theorem no_published_song_no_recommendation w songs b currentPageGenres r :
  (forall s, In s songs -> truthyUrl (pageUrl s) = false) ->
  recommendSong w songs b currentPageGenres r = None
  /\ V0.recommendSong songs b currentPageGenres r = None.
Proof.
  intros H. apply publishedSongs_nil in H.
  unfold recommendSong, V0.recommendSong. rewrite H.
  split.
  - destruct (buildScores w songs b currentPageGenres) as [gs ns].
    destruct (fst (topGenre gs)) as [g|]; [|apply pickRandomSong_nil].
    destruct (String.eqb g EmptyString); apply pickRandomSong_nil.
  - destruct (V0.buildScores songs b currentPageGenres) as [gs ns].
    destruct (fst (topGenre gs)) as [g|]; [|apply randomOf_nil].
    destruct (String.eqb g EmptyString); apply randomOf_nil.
Qed.

Lemma no_published_song_no_recommendation_witness :
  recommendSong (demoWindow "/") [songDraft]
    (mkBehavior [("/", 4)] [("Draft", 2)] [("/", 90)]) ["praise"] (mkDraw 1 2)
  = None
  /\ V0.recommendSong [songDraft]
       (mkBehavior [("/", 4)] [("Draft", 2)] [("/", 90)]) ["praise"]
       (mkDraw 1 2)
     = None.
Proof.
  apply (no_published_song_no_recommendation (demoWindow "/") [songDraft]).
  intros s [<-|[]]. reflexivity.
Defined.

(** ** Nothing to score with *)

Lemma buildScores_cold w songs b :
  clicks b = [] -> timeSpent b = [] -> buildScores w songs b [] = ([], []).
Proof. intros Hc Ht. unfold buildScores. rewrite Hc, Ht. reflexivity. Qed.

Lemma buildScores_cold_V0 songs b :
  clicks b = [] -> timeSpent b = [] -> V0.buildScores songs b [] = ([], []).
Proof. intros Hc Ht. unfold V0.buildScores. rewrite Hc, Ht. reflexivity. Qed.

Lemma recommendSong_cold w songs b r :
  clicks b = [] -> timeSpent b = [] ->
  recommendSong w songs b [] r
  = pickRandomSong (publishedSongs songs) (getCurrentSong w songs) r.
Proof.
  intros Hc Ht. unfold recommendSong.
  rewrite (buildScores_cold w songs b Hc Ht). reflexivity.
Qed.

Lemma recommendSong_cold_V0 songs b r :
  clicks b = [] -> timeSpent b = [] ->
  V0.recommendSong songs b [] r = V0.randomOf (publishedSongs songs) r.
Proof.
  intros Hc Ht. unfold V0.recommendSong.
  rewrite (buildScores_cold_V0 songs b Hc Ht). reflexivity.
Qed.

Lemma randomOf_some l r :
  l <> [] -> exists s, V0.randomOf l r = Some s /\ In s l.
Proof.
  intros Hl. unfold V0.randomOf.
  destruct (nth_error l (randomIndex r (List.length l))) as [s|] eqn:E.
  - exists s. split; [reflexivity|]. apply (nth_error_In _ _ E).
  - apply nth_error_None in E.
    pose proof (randomIndex_lt r (List.length l)) as Hlt.
    destruct l; [congruence|]. simpl in *. lia.
Qed.

(** C7, as the code has it.  With no clicks, no time spent and no genre on
    the page, and a catalog that has a published song: the first variant
    returns a published song; the variant that excludes the current song
    returns a published song other than the current one when there is one,
    and null when every published song carries the current song's title.
    Both are total: nothing is thrown. *)
Theorem cold_start_recommendation w songs b r :
  clicks b = [] -> timeSpent b = [] -> publishedSongs songs <> [] ->
  (exists s, V0.recommendSong songs b [] r = Some s
             /\ In s (publishedSongs songs))
  /\ ((exists c, In c (publishedSongs songs)
                 /\ isCurrent (getCurrentSong w songs) c = false) ->
      exists s, recommendSong w songs b [] r = Some s
                /\ In s (publishedSongs songs)
                /\ isCurrent (getCurrentSong w songs) s = false)
  /\ ((forall c, In c (publishedSongs songs) ->
                 isCurrent (getCurrentSong w songs) c = true) ->
      recommendSong w songs b [] r = None).
Proof.
  intros Hc Ht Hp.
  rewrite (recommendSong_cold w songs b r Hc Ht),
    (recommendSong_cold_V0 songs b r Hc Ht).
  split; [apply randomOf_some, Hp|]. split.
  - intros (c & Hin & Hcur).
    destruct (pickRandomSong (publishedSongs songs) (getCurrentSong w songs) r)
      as [s|] eqn:E.
    + exists s. split; [reflexivity|]. apply (pickRandomSong_some _ _ _ _ E).
    + rewrite pickRandomSong_none in E. rewrite (E c Hin) in Hcur.
      discriminate.
  - apply pickRandomSong_none.
Qed.

Lemma cold_start_recommendation_witness :
  (exists s, V0.recommendSong [songDraft; songA; songB]
               (mkBehavior [("/songs/a", 1)] [] []) [] (mkDraw 1 1) = Some s
             /\ In s (publishedSongs [songDraft; songA; songB]))
  /\ recommendSong (demoWindow "/songs/a") [songDraft; songA; songB]
       (mkBehavior [("/songs/a", 1)] [] []) [] (mkDraw 1 1) = Some songB.
Proof.
  split; [|reflexivity].
  apply (cold_start_recommendation (demoWindow "/songs/a")
           [songDraft; songA; songB] (mkBehavior [("/songs/a", 1)] [] [])
           (mkDraw 1 1)); [reflexivity|reflexivity|discriminate].
Defined.

(** The claim C7 fails on the page of the only published song: the catalog
    has a published song and the scorer returns null. *)
Lemma cold_start_counterexample :
  publishedSongs [songDraft; songA] = [songA]
  /\ getCurrentSong (demoWindow "/songs/a") [songDraft; songA] = Some songA
  /\ recommendSong (demoWindow "/songs/a") [songDraft; songA]
       emptyBehavior [] (mkDraw 0 0) = None.
Proof. repeat split; reflexivity. Qed.

(** ** What a click and a minute add *)

Lemma find_none_unmatched (published : list Song) songTitle :
  (forall s, In s published -> title s <> songTitle) ->
  find (fun s => String.eqb (title s) songTitle) published = None.
Proof.
  intros H. induction published as [|s l IH]; simpl; [reflexivity|].
  destruct (String.eqb (title s) songTitle) eqn:E.
  - apply String.eqb_eq in E. exfalso. apply (H s); [left; reflexivity|assumption].
  - apply IH. intros s' Hs'. apply H. right. assumption.
Qed.

Lemma count_occ_flat_map {A} (f : A -> list string) (l : list A) tag :
  count_occ string_dec (flat_map f l) tag
  = list_sum (map (fun a => count_occ string_dec (f a) tag) l).
Proof.
  induction l as [|a l IH]; simpl; [reflexivity|].
  rewrite count_occ_app, IH. reflexivity.
Qed.

Lemma num_pageGenres onPage published genreScores d tag :
  num tag (bumpEach (pageGenres onPage published) d genreScores)
  = num tag genreScores
    + d * Z.of_nat
            (list_sum
               (map (fun song => count_occ string_dec (tagsOf (genres song)) tag)
                    (filter onPage published))).
Proof.
  rewrite num_bumpEach. unfold pageGenres. rewrite count_occ_flat_map.
  reflexivity.
Qed.

(** ** Loops that keep the first best element *)

Section FirstBest.
Context {A B : Type}.
Variables (skip : A -> bool) (score : A -> Z) (pick : A -> B).
Variable step : option B * Z -> A -> option B * Z.
Hypothesis step_eq : forall best x,
  step best x
  = if skip x then best
    else if score x >? snd best then (Some (pick x), score x) else best.

Lemma fold_firstBest l : forall best,
  (fold_left step l best = best
   /\ Forall (fun y => skip y = true \/ score y <= snd best) l)
  \/ (exists x, firstBest skip score l x
                /\ fold_left step l best = (Some (pick x), score x)
                /\ snd best < score x).
Proof.
  induction l as [|a l IH]; intros best; simpl.
  - left. split; [reflexivity|constructor].
  - rewrite step_eq. destruct (skip a) eqn:Hskip.
    + destruct (IH best) as [[Hf Hall]|(x & (l1 & l2 & -> & Hx & H1 & H2) & Hf & Hlt)].
      * left. split; [assumption|]. constructor; auto.
      * right. exists x. split; [|split; assumption].
        exists (a :: l1), l2. repeat split; auto.
    + destruct (Z.gtb_spec (score a) (snd best)) as [Hgt|Hle].
      * destruct (IH (Some (pick a), score a))
          as [[Hf Hall]|(x & (l1 & l2 & -> & Hx & H1 & H2) & Hf & Hlt)];
          simpl in *.
        -- right. exists a. split; [|split; [assumption|lia]].
           exists [], l. repeat split; auto.
        -- right. exists x. split; [|split; [assumption|lia]].
           exists (a :: l1), l2. repeat split; auto.
      * destruct (IH best)
          as [[Hf Hall]|(x & (l1 & l2 & -> & Hx & H1 & H2) & Hf & Hlt)].
        -- left. split; [assumption|]. constructor; auto.
        -- right. exists x. split; [|split; assumption].
           exists (a :: l1), l2. repeat split; auto.
           constructor; [right; lia|assumption].
Qed.

(** From the sentinel: an element that is not skipped and scores at least
    0 makes the loop end on the first best one. *)
Lemma fold_firstBest_found l c :
  In c l -> skip c = false -> 0 <= score c ->
  exists x, firstBest skip score l x
            /\ fold_left step l (None, -1) = (Some (pick x), score x)
            /\ 0 <= score x.
Proof.
  intros Hin Hskip Hpos.
  destruct (fold_firstBest l (None, -1))
    as [[_ Hall]|(x & Hbest & Hf & Hlt)]; simpl in *.
  - rewrite Forall_forall in Hall. destruct (Hall c Hin); [congruence|lia].
  - exists x. repeat split; try assumption.
    destruct Hbest as (l1 & l2 & -> & Hx & H1 & H2).
    apply in_app_or in Hin. rewrite Forall_forall in H1, H2.
    destruct Hin as [Hin|[->|Hin]]; [destruct (H1 c Hin)| |destruct (H2 c Hin)];
      try congruence; lia.
Qed.

(** The loop ends without an element only if it kept none. *)
Lemma fold_firstBest_none l :
  fst (fold_left step l (None, -1)) = None ->
  forall c, In c l -> skip c = true \/ score c <= -1.
Proof.
  intros Hnone c Hin.
  destruct (fold_firstBest l (None, -1))
    as [[_ Hall]|(x & _ & Hf & _)]; simpl in *.
  - rewrite Forall_forall in Hall. apply (Hall c Hin).
  - rewrite Hf in Hnone. discriminate.
Qed.
End FirstBest.

Lemma firstBest_in {A} (skip : A -> bool) score l x :
  firstBest skip score l x -> In x l /\ skip x = false.
Proof.
  intros (l1 & l2 & -> & Hx & _). split; [|assumption].
  apply in_or_app. right. left. reflexivity.
Qed.

(** ** The scores are never negative *)

Lemma scoreClick_nonNegative published scores entry :
  nonNegative (fst scores) -> nonNegative (snd scores) -> 0 <= snd entry ->
  nonNegative (fst (scoreClick published scores entry))
  /\ nonNegative (snd (scoreClick published scores entry)).
Proof.
  intros Hg Hn He. destruct entry as [t count]. unfold scoreClick. simpl in He.
  destruct (find _ published); simpl; [|auto].
  split; apply nonNegative_bumpEach; try assumption; lia.
Qed.

Lemma scoreClicks_nonNegative published clicked scores :
  nonNegative clicked -> nonNegative (fst scores) -> nonNegative (snd scores) ->
  nonNegative (fst (scoreClicks published clicked scores))
  /\ nonNegative (snd (scoreClicks published clicked scores)).
Proof.
  unfold scoreClicks. intros Hc. revert scores.
  induction Hc as [|e l He _ IH]; intros scores Hg Hn; simpl; [auto|].
  destruct (scoreClick_nonNegative published scores e Hg Hn He).
  apply IH; assumption.
Qed.

Lemma fold_bumps_nonNegative (genresOf : string -> list string) spent scores :
  nonNegative spent -> nonNegative scores ->
  nonNegative
    (fold_left (fun acc (entry : string * Z) =>
                  let (page, time) := entry in
                  bumpEach (genresOf page) (time / 60) acc) spent scores).
Proof.
  intros Hs. revert scores.
  induction Hs as [|[page time] l He _ IH]; intros scores Hg; simpl;
    [assumption|].
  apply IH, nonNegative_bumpEach; [assumption|].
  simpl in He. apply Z.div_pos; lia.
Qed.

Lemma scoreCurrentGenres_nonNegative currentPageGenres scores :
  nonNegative scores ->
  nonNegative (scoreCurrentGenres currentPageGenres scores).
Proof.
  intros H. unfold scoreCurrentGenres.
  destruct (0 <? List.length currentPageGenres)%nat; [|assumption].
  apply nonNegative_bumpEach; [assumption|lia].
Qed.

Lemma buildScores_nonNegative w songs b currentPageGenres :
  wellFormed b ->
  nonNegative (fst (buildScores w songs b currentPageGenres))
  /\ nonNegative (snd (buildScores w songs b currentPageGenres)).
Proof.
  intros (_ & Hc & Ht). unfold buildScores. simpl.
  destruct (scoreClicks_nonNegative (publishedSongs songs) (clicks b) ([], [])
              Hc (Forall_nil _) (Forall_nil _)) as [Hg Hn].
  split; [|assumption].
  apply scoreCurrentGenres_nonNegative.
  apply (fold_bumps_nonNegative
           (fun page => pageGenres (fun song => samePage w song page)
                                   (publishedSongs songs)));
    assumption.
Qed.

Lemma buildScores_nonNegative_V0 songs b currentPageGenres :
  wellFormed b ->
  nonNegative (fst (V0.buildScores songs b currentPageGenres))
  /\ nonNegative (snd (V0.buildScores songs b currentPageGenres)).
Proof.
  intros (_ & Hc & Ht). unfold V0.buildScores. simpl.
  destruct (scoreClicks_nonNegative (publishedSongs songs) (clicks b) ([], [])
              Hc (Forall_nil _) (Forall_nil _)) as [Hg Hn].
  split; [|assumption].
  apply scoreCurrentGenres_nonNegative.
  apply (fold_bumps_nonNegative
           (fun page => pageGenres (V0.onPage page) (publishedSongs songs)));
    assumption.
Qed.

(** ** The genre scores have each tag once *)

Lemma scoreClicks_uniqueKeys published clicked scores :
  uniqueKeys (fst scores) ->
  uniqueKeys (fst (scoreClicks published clicked scores)).
Proof.
  unfold scoreClicks. revert scores.
  induction clicked as [|[t count] l IH]; intros scores Hu; simpl;
    [assumption|].
  apply IH. unfold scoreClick. destruct (find _ published); [|assumption].
  simpl. apply uniqueKeys_bumpEach, Hu.
Qed.

Lemma fold_bumps_uniqueKeys (genresOf : string -> list string)
    (spent : jsobj) scores :
  uniqueKeys scores ->
  uniqueKeys
    (fold_left (fun acc (entry : string * Z) =>
                  let (page, time) := entry in
                  bumpEach (genresOf page) (time / 60) acc) spent scores).
Proof.
  revert scores.
  induction spent as [|[page time] l IH]; intros scores Hu; simpl;
    [assumption|].
  apply IH, uniqueKeys_bumpEach, Hu.
Qed.

Lemma buildScores_uniqueKeys w songs b currentPageGenres :
  uniqueKeys (fst (buildScores w songs b currentPageGenres)).
Proof.
  unfold buildScores, scoreCurrentGenres. simpl.
  assert (Hu : uniqueKeys
                 (scoreTimes w (publishedSongs songs) (timeSpent b)
                    (fst (scoreClicks (publishedSongs songs) (clicks b)
                            ([], []))))).
  { apply (fold_bumps_uniqueKeys
             (fun page => pageGenres (fun song => samePage w song page)
                                     (publishedSongs songs))).
    apply scoreClicks_uniqueKeys. constructor. }
  destruct (0 <? List.length currentPageGenres)%nat; [|assumption].
  apply uniqueKeys_bumpEach, Hu.
Qed.

(** The score that the top-genre loop holds for a key is the one stored
    under that key. *)
Lemma topGenre_score w songs b currentPageGenres g v :
  firstBest (fun _ => false) snd
            (fst (buildScores w songs b currentPageGenres)) (g, v) ->
  obj_get g (fst (buildScores w songs b currentPageGenres)) = Some v.
Proof.
  intros Hbest. apply uniqueKeys_entry; [apply buildScores_uniqueKeys|].
  apply (firstBest_in _ _ _ _ Hbest).
Qed.

(** ** The total of a candidate *)

Lemma fold_scores_shift scores tags a :
  fold_left (fun sc tag => sc + num tag scores) tags a
  = a + tagTotal scores tags.
Proof.
  revert a. induction tags as [|t tags IH]; intros a; simpl; [lia|].
  rewrite IH. lia.
Qed.

Lemma songScore_total genreScores needScores song :
  songScore genreScores needScores song
  = tagTotal genreScores (tagsOf (genres song))
    + tagTotal needScores (tagsOf (spiritualNeeds song)).
Proof. unfold songScore. rewrite !fold_scores_shift. lia. Qed.

Lemma tagTotal_nonneg scores tags : nonNegative scores -> 0 <= tagTotal scores tags.
Proof.
  intros H. induction tags as [|t tags IH]; simpl; [lia|].
  pose proof (nonNegative_num t scores H). lia.
Qed.

Lemma songScore_nonneg genreScores needScores song :
  nonNegative genreScores -> nonNegative needScores ->
  0 <= songScore genreScores needScores song.
Proof.
  intros Hg Hn. rewrite songScore_total.
  pose proof (tagTotal_nonneg _ (tagsOf (genres song)) Hg).
  pose proof (tagTotal_nonneg _ (tagsOf (spiritualNeeds song)) Hn). lia.
Qed.

(** ** The best matching song *)

Lemma firstBest_ext {A} (skip : A -> bool) (score score' : A -> Z) l x :
  (forall y, score y = score' y) ->
  firstBest skip score l x -> firstBest skip score' l x.
Proof.
  intros Heq (l1 & l2 & Hl & Hx & H1 & H2). exists l1, l2.
  repeat split; try assumption.
  - eapply Forall_impl; [|exact H1]. intros y. simpl. rewrite !Heq. tauto.
  - eapply Forall_impl; [|exact H2]. intros y. simpl. rewrite !Heq. tauto.
Qed.

Lemma bestSongStep_eq w songs genreScores needScores best song :
  bestSongStep w songs genreScores needScores best song
  = if isCurrent (getCurrentSong w songs) song then best
    else if songScore genreScores needScores song >? snd best
         then (Some song, songScore genreScores needScores song)
         else best.
Proof. reflexivity. Qed.

Lemma bestSongStep_eq_V0 genreScores needScores best song :
  V0.bestSongStep genreScores needScores best song
  = if false then best
    else if songScore genreScores needScores song >? snd best
         then (Some song, songScore genreScores needScores song)
         else best.
Proof. reflexivity. Qed.

Lemma topGenreStep_eq best (entry : string * Z) :
  topGenreStep best entry
  = if false then best
    else if snd entry >? snd best then (Some (fst entry), snd entry) else best.
Proof. reflexivity. Qed.

Lemma bestSongLoop_found w songs genreScores needScores matching c :
  nonNegative genreScores -> nonNegative needScores ->
  In c matching -> isCurrent (getCurrentSong w songs) c = false ->
  exists best,
    bestSongLoop w songs genreScores needScores matching
    = (Some best, songScore genreScores needScores best)
    /\ firstBest (isCurrent (getCurrentSong w songs))
         (songScore genreScores needScores) matching best.
Proof.
  intros Hg Hn Hin Hcur.
  destruct (fold_firstBest_found _ _ (fun s : Song => s) _
              (bestSongStep_eq w songs genreScores needScores)
              matching c Hin Hcur
              (songScore_nonneg _ _ c Hg Hn)) as (x & Hbest & Hf & _).
  exists x. split; assumption.
Qed.

Lemma bestSongLoop_in w songs genreScores needScores matching s :
  fst (bestSongLoop w songs genreScores needScores matching) = Some s ->
  In s matching /\ isCurrent (getCurrentSong w songs) s = false.
Proof.
  intros H.
  destruct (fold_firstBest _ _ (fun s : Song => s) _
              (bestSongStep_eq w songs genreScores needScores)
              matching (None, -1)) as [[Hf _]|(x & Hbest & Hf & _)];
    unfold bestSongLoop in H; rewrite Hf in H; simpl in H; [discriminate|].
  inversion H; subst. apply (firstBest_in _ _ _ _ Hbest).
Qed.

Lemma matching_nonempty (l : list Song) c :
  In c l -> (List.length l =? 0)%nat = false.
Proof. destruct l; [intros []|reflexivity]. Qed.

(** C1.  For a well-formed behaviour record, when the top genre [g] exists
    and some matching song is not excluded as the current song, the scorer
    returns a matching song that is not the current one and whose total, the
    sum of the genre scores of its genre tags plus the sum of the need scores
    of its need tags (0 for a tag without a score), is strictly higher than
    the totals of the candidates before it and not lower than the totals of
    those after it. *)
Theorem best_candidate_selected w songs b currentPageGenres r genreScores
    needScores g :
  wellFormed b ->
  buildScores w songs b currentPageGenres = (genreScores, needScores) ->
  fst (topGenre genreScores) = Some g -> g <> EmptyString ->
  (exists c, In c (matchingSongs g (publishedSongs songs))
             /\ isCurrent (getCurrentSong w songs) c = false) ->
  exists best,
    recommendSong w songs b currentPageGenres r = Some best
    /\ firstBest (isCurrent (getCurrentSong w songs))
         (fun song =>
            tagTotal genreScores (tagsOf (genres song))
            + tagTotal needScores (tagsOf (spiritualNeeds song)))
         (matchingSongs g (publishedSongs songs)) best.
Proof.
  intros Hwf Hbuild Htop Hg (c & Hin & Hcur).
  destruct (buildScores_nonNegative w songs b currentPageGenres Hwf)
    as [Hgs Hns].
  rewrite Hbuild in Hgs, Hns. simpl in Hgs, Hns.
  destruct (bestSongLoop_found w songs genreScores needScores _ c
              Hgs Hns Hin Hcur) as (best & Hloop & Hbest).
  exists best. split.
  - unfold recommendSong. rewrite Hbuild, Htop.
    apply String.eqb_neq in Hg. rewrite Hg.
    rewrite (matching_nonempty _ _ Hin), Hloop. reflexivity.
  - apply (firstBest_ext _ _ _ _ _ (songScore_total genreScores needScores)).
    exact Hbest.
Qed.

Lemma best_candidate_selected_witness :
  exists best,
    recommendSong (demoWindow "/songs/a") [songA; songDraft; songB]
      (mkBehavior [("/songs/a", 3)] [("Song A", 3)] [("/songs/b", 130)])
      ["worship"] (mkDraw 0 0) = Some best
    /\ firstBest (isCurrent (Some songA))
         (fun song =>
            tagTotal [("praise", 6); ("worship", 11); ("lament", 2)]
              (tagsOf (genres song))
            + tagTotal [("joy", 3)] (tagsOf (spiritualNeeds song)))
         [songA; songB] best.
Proof.
  apply (best_candidate_selected (demoWindow "/songs/a")
           [songA; songDraft; songB]
           (mkBehavior [("/songs/a", 3)] [("Song A", 3)] [("/songs/b", 130)])
           ["worship"] (mkDraw 0 0)
           [("praise", 6); ("worship", 11); ("lament", 2)] [("joy", 3)]
           "worship").
  - repeat split; repeat constructor; simpl; lia.
  - reflexivity.
  - reflexivity.
  - discriminate.
  - exists songB. split; [right; left; reflexivity|reflexivity].
Defined.

(** The first variant evaluates every matching song. *)
Lemma best_candidate_selected_V0 songs b currentPageGenres r genreScores
    needScores g :
  wellFormed b ->
  V0.buildScores songs b currentPageGenres = (genreScores, needScores) ->
  fst (topGenre genreScores) = Some g -> g <> EmptyString ->
  matchingSongs g (publishedSongs songs) <> [] ->
  exists best,
    V0.recommendSong songs b currentPageGenres r = Some best
    /\ firstBest (fun _ => false)
         (fun song =>
            tagTotal genreScores (tagsOf (genres song))
            + tagTotal needScores (tagsOf (spiritualNeeds song)))
         (matchingSongs g (publishedSongs songs)) best.
Proof.
  intros Hwf Hbuild Htop Hg Hne.
  destruct (buildScores_nonNegative_V0 songs b currentPageGenres Hwf)
    as [Hgs Hns].
  rewrite Hbuild in Hgs, Hns. simpl in Hgs, Hns.
  destruct (matchingSongs g (publishedSongs songs)) as [|c l] eqn:Em;
    [congruence|].
  destruct (fold_firstBest_found (fun _ => false)
              (songScore genreScores needScores) (fun s : Song => s) _
              (bestSongStep_eq_V0 genreScores needScores)
              (c :: l) c (or_introl eq_refl) eq_refl
              (songScore_nonneg _ _ c Hgs Hns)) as (x & Hbest & Hf & _).
  exists x. split.
  - unfold V0.recommendSong. rewrite Hbuild, Htop.
    apply String.eqb_neq in Hg. rewrite Hg, Em.
    unfold V0.bestSongLoop. rewrite Hf. reflexivity.
  - apply (firstBest_ext _ _ _ _ _ (songScore_total genreScores needScores)).
    exact Hbest.
Qed.

(** C10.  With a well-formed behaviour record every total is at least 0, so
    above the sentinel: the loop over the matching songs ends on a song as
    soon as one of them is not the current song, and it ends without one only
    when every matching song is the current song. *)
Theorem best_song_unless_all_current w songs b currentPageGenres genreScores
    needScores matching :
  wellFormed b ->
  buildScores w songs b currentPageGenres = (genreScores, needScores) ->
  (forall c, -1 < songScore genreScores needScores c)
  /\ ((exists c, In c matching
                 /\ isCurrent (getCurrentSong w songs) c = false) ->
      exists best,
        fst (bestSongLoop w songs genreScores needScores matching) = Some best)
  /\ (fst (bestSongLoop w songs genreScores needScores matching) = None ->
      forall c, In c matching -> isCurrent (getCurrentSong w songs) c = true).
Proof.
  intros Hwf Hbuild.
  destruct (buildScores_nonNegative w songs b currentPageGenres Hwf)
    as [Hgs Hns].
  rewrite Hbuild in Hgs, Hns. simpl in Hgs, Hns.
  assert (Hpos : forall c, 0 <= songScore genreScores needScores c)
    by (intros c; apply songScore_nonneg; assumption).
  split; [intros c; specialize (Hpos c); lia|]. split.
  - intros (c & Hin & Hcur).
    destruct (bestSongLoop_found w songs genreScores needScores matching c
                Hgs Hns Hin Hcur) as (best & Hloop & _).
    exists best. rewrite Hloop. reflexivity.
  - intros Hnone c Hin.
    destruct (fold_firstBest_none _ _ (fun s : Song => s) _
                (bestSongStep_eq w songs genreScores needScores)
                matching Hnone c Hin) as [Hcur|Hlow]; [assumption|].
    specialize (Hpos c). lia.
Qed.

Lemma best_song_unless_all_current_witness :
  (exists best,
      fst (bestSongLoop (demoWindow "/songs/a") [songA; songB]
             [("praise", 2); ("worship", 2)] [("joy", 1)] [songA; songB])
      = Some best)
  /\ fst (bestSongLoop (demoWindow "/songs/a") [songA; songB]
            [("praise", 2); ("worship", 2)] [("joy", 1)] [songA])
     = None.
Proof.
  split; [|reflexivity].
  apply (best_song_unless_all_current (demoWindow "/songs/a") [songA; songB]
           (mkBehavior [] [("Song A", 1)] []) []
           [("praise", 2); ("worship", 2)] [("joy", 1)] [songA; songB]).
  - repeat split; repeat constructor; simpl; lia.
  - reflexivity.
  - exists songB. split; [right; left; reflexivity|reflexivity].
Defined.

(** ** The top genre *)

Lemma topGenre_found genreScores :
  nonNegative genreScores -> genreScores <> [] ->
  exists g v, topGenre genreScores = (Some g, v)
              /\ firstBest (fun _ => false) snd genreScores (g, v).
Proof.
  intros Hpos Hne. destruct genreScores as [|e l] eqn:E; [congruence|].
  rewrite <- E in *.
  assert (Hin : In e genreScores) by (rewrite E; left; reflexivity).
  assert (He : 0 <= snd e)
    by (unfold nonNegative in Hpos; rewrite Forall_forall in Hpos; auto).
  destruct (fold_firstBest_found (fun _ => false) snd fst topGenreStep
              topGenreStep_eq genreScores e Hin eq_refl He)
    as ([g v] & Hbest & Hf & _).
  exists g, v. split; assumption.
Qed.

Lemma matchingSongs_hasGenre g published s :
  In s (matchingSongs g published) -> In g (tagsOf (genres s)).
Proof.
  unfold matchingSongs, hasGenre. intros H. apply filter_In in H.
  destruct H as [_ H]. apply existsb_exists in H.
  destruct H as (t & Ht & E). apply String.eqb_eq in E. subst. assumption.
Qed.

(** C2.  For the genre scores that the three scoring loops have built: when
    they are empty the scorer goes straight to the fallback over the
    published songs; when they are not (the behaviour record being well
    formed), the top genre is the first key, in iteration order, to carry the
    highest score (the keys before it score strictly less, those after it
    not more); and a song recommended when the top genre has matching songs
    has the top genre among its genre tags. *)
Theorem top_genre_selected w songs b currentPageGenres r genreScores
    needScores :
  buildScores w songs b currentPageGenres = (genreScores, needScores) ->
  (genreScores = [] ->
   recommendSong w songs b currentPageGenres r
   = pickRandomSong (publishedSongs songs) (getCurrentSong w songs) r)
  /\ (wellFormed b -> genreScores <> [] ->
      exists g v, topGenre genreScores = (Some g, v)
                  /\ firstBest (fun _ => false) snd genreScores (g, v))
  /\ (forall g s,
         fst (topGenre genreScores) = Some g -> g <> EmptyString ->
         matchingSongs g (publishedSongs songs) <> [] ->
         recommendSong w songs b currentPageGenres r = Some s ->
         In g (tagsOf (genres s))).
Proof.
  intros Hbuild. split; [|split].
  - intros ->. unfold recommendSong. rewrite Hbuild. reflexivity.
  - intros Hwf.
    destruct (buildScores_nonNegative w songs b currentPageGenres Hwf)
      as [Hgs _].
    rewrite Hbuild in Hgs. simpl in Hgs. apply topGenre_found, Hgs.
  - intros g s Htop Hg Hne. unfold recommendSong. rewrite Hbuild, Htop.
    apply String.eqb_neq in Hg. rewrite Hg.
    destruct (matchingSongs g (publishedSongs songs)) as [|c l] eqn:Em;
      [congruence|].
    rewrite <- Em. rewrite Em at 1. simpl.
    destruct (fst (bestSongLoop w songs genreScores needScores
                     (matchingSongs g (publishedSongs songs))))
      as [best|] eqn:El; intros Hs.
    + inversion Hs; subst.
      apply (matchingSongs_hasGenre _ (publishedSongs songs)).
      apply (bestSongLoop_in _ _ _ _ _ _ El).
    + apply (matchingSongs_hasGenre _ (publishedSongs songs)).
      apply (pickRandomSong_some _ _ _ _ Hs).
Qed.

Lemma top_genre_selected_witness :
  (exists g v,
      topGenre [("praise", 6); ("worship", 6)] = (Some g, v)
      /\ firstBest (fun _ => false) snd [("praise", 6); ("worship", 6)] (g, v))
  /\ topGenre [("praise", 6); ("worship", 6)] = (Some "praise", 6)
  /\ In "praise"
       (tagsOf (genres songA))
  /\ recommendSong (demoWindow "/") [songB; songA]
       (mkBehavior [] [("Song A", 3)] []) [] (mkDraw 0 0) = Some songA.
Proof.
  destruct (top_genre_selected (demoWindow "/") [songB; songA]
              (mkBehavior [] [("Song A", 3)] []) [] (mkDraw 0 0)
              [("praise", 6); ("worship", 6)] [("joy", 3)] eq_refl)
    as (_ & Htop & Hsong).
  split; [|split; [reflexivity|split; [|reflexivity]]].
  - apply Htop; [|discriminate].
    repeat split; repeat constructor; simpl; lia.
  - apply (Hsong "praise" songA); [reflexivity|discriminate|discriminate|].
    reflexivity.
Defined.

(** The first variant chooses the top genre in the same way. *)
Lemma top_genre_selected_V0 songs b currentPageGenres r genreScores
    needScores :
  wellFormed b ->
  V0.buildScores songs b currentPageGenres = (genreScores, needScores) ->
  (genreScores = [] ->
   V0.recommendSong songs b currentPageGenres r
   = V0.randomOf (publishedSongs songs) r)
  /\ (genreScores <> [] ->
      exists g v, topGenre genreScores = (Some g, v)
                  /\ firstBest (fun _ => false) snd genreScores (g, v)).
Proof.
  intros Hwf Hbuild.
  destruct (buildScores_nonNegative_V0 songs b currentPageGenres Hwf)
    as [Hgs _].
  rewrite Hbuild in Hgs. simpl in Hgs. split.
  - intros ->. unfold V0.recommendSong. rewrite Hbuild. reflexivity.
  - apply topGenre_found, Hgs.
Qed.

(** ** The scorer on sample sessions *)

(** Array-index keys are enumerated first, in numeric order. *)
Example keys_enumeration :
  map fst (obj_set "b" 1 (obj_set "10" 2 (obj_set "a" 3
             (obj_set "9" 4 (obj_set "01" 5 [])))))
  = ["9"; "10"; "01"; "a"; "b"].
Proof. reflexivity. Qed.

Example tags_of_genres :
  tagsOf "Praise,  Worship ,Lament" = ["praise"; "worship"; "lament"].
Proof. reflexivity. Qed.

(** A genre on the page gets 3; with one published song of that genre,
    visited from another page, that song is recommended. *)
Example page_genre_only :
  let joySong := mkSong "Joyful" "joy" "gladness" (Some "/songs/joy") in
  buildScores (demoWindow "/x") [joySong] (mkBehavior [("/x", 3)] [] [])
    ["joy"] = ([("joy", 3)], [])
  /\ recommendSong (demoWindow "/x") [joySong] (mkBehavior [("/x", 3)] [] [])
       ["joy"] (mkDraw 0 0) = Some joySong.
Proof. split; reflexivity. Qed.

(** A tie between two genres goes to the one enumerated first, a tie between
    two songs to the one met first. *)
Example ties_go_to_the_first :
  topGenre [("worship", 6); ("praise", 6); ("lament", 1)] = (Some "worship", 6)
  /\ fst (V0.bestSongLoop [("worship", 6); ("lament", 0)] []
            [songB; songA; songHope]) = Some songB.
Proof. split; reflexivity. Qed.

(** ** What the scorer can return *)

Lemma recommendSong_origin w songs b currentPageGenres r s :
  recommendSong w songs b currentPageGenres r = Some s ->
  isCurrent (getCurrentSong w songs) s = false
  /\ (In s (publishedSongs songs)
      \/ exists g, In s (matchingSongs g (publishedSongs songs))).
Proof.
  unfold recommendSong.
  destruct (buildScores w songs b currentPageGenres) as [gs ns].
  assert (Hrandom : forall pool,
             pickRandomSong pool (getCurrentSong w songs) r = Some s ->
             isCurrent (getCurrentSong w songs) s = false /\ In s pool).
  { intros pool H. destruct (pickRandomSong_some _ _ _ _ H). auto. }
  destruct (fst (topGenre gs)) as [g|].
  - destruct (String.eqb g EmptyString).
    + intros H. destruct (Hrandom _ H). auto.
    + destruct (List.length (matchingSongs g (publishedSongs songs)) =? 0)%nat.
      * intros H. destruct (Hrandom _ H). auto.
      * destruct (fst (bestSongLoop w songs gs ns
                         (matchingSongs g (publishedSongs songs))))
          as [best|] eqn:El; intros H.
        -- inversion H; subst.
           destruct (bestSongLoop_in _ _ _ _ _ _ El). eauto.
        -- destruct (Hrandom _ H). eauto.
  - intros H. destruct (Hrandom _ H). auto.
Qed.

Lemma matchingSongs_published g published s :
  In s (matchingSongs g published) -> In s published.
Proof. unfold matchingSongs. intros H. apply filter_In in H. tauto. Qed.

Lemma publishedSongs_in songs s :
  In s (publishedSongs songs) <-> In s songs /\ truthyUrl (pageUrl s) = true.
Proof. unfold publishedSongs. apply filter_In. Qed.

(** Whatever the behaviour record, the genres of the page and the draw, the
    scorer never returns a song that carries the title of the song whose
    page is being viewed. *)
Theorem current_song_never_recommended w songs b currentPageGenres r s c :
  recommendSong w songs b currentPageGenres r = Some s ->
  getCurrentSong w songs = Some c ->
  title s <> title c.
Proof.
  intros Hs Hc. destruct (recommendSong_origin _ _ _ _ _ _ Hs) as [Hcur _].
  rewrite Hc in Hcur. simpl in Hcur. apply String.eqb_neq. assumption.
Qed.

Lemma current_song_never_recommended_witness :
  title songB <> title songA.
Proof.
  apply (current_song_never_recommended (demoWindow "/songs/a")
           [songA; songB] (mkBehavior [] [("Song A", 4)] []) ["worship"]
           (mkDraw 0 0) songB songA); reflexivity.
Defined.

Lemma bestSongLoop_in_V0 genreScores needScores matching s :
  fst (V0.bestSongLoop genreScores needScores matching) = Some s ->
  In s matching.
Proof.
  intros H. unfold V0.bestSongLoop in H.
  destruct (fold_firstBest (fun _ => false)
              (songScore genreScores needScores) (fun s : Song => s) _
              (bestSongStep_eq_V0 genreScores needScores)
              matching (None, -1)) as [[Hf _]|(x & Hbest & Hf & _)];
    rewrite Hf in H; simpl in H; [discriminate|].
  inversion H; subst. apply (firstBest_in _ _ _ _ Hbest).
Qed.

Lemma recommendSong_origin_V0 songs b currentPageGenres r s :
  V0.recommendSong songs b currentPageGenres r = Some s ->
  In s (publishedSongs songs).
Proof.
  unfold V0.recommendSong.
  destruct (V0.buildScores songs b currentPageGenres) as [gs ns].
  assert (Hrandom : forall pool, V0.randomOf pool r = Some s -> In s pool)
    by (intros pool H; apply (nth_error_In _ _ H)).
  destruct (fst (topGenre gs)) as [g|]; [|apply Hrandom].
  destruct (String.eqb g EmptyString); [apply Hrandom|].
  destruct (List.length (matchingSongs g (publishedSongs songs)) =? 0)%nat;
    [apply Hrandom|].
  destruct (fst (V0.bestSongLoop gs ns
                   (matchingSongs g (publishedSongs songs))))
    as [best|] eqn:El; intros H.
  - inversion H; subst.
    apply (matchingSongs_published g), (bestSongLoop_in_V0 _ _ _ _ El).
  - apply (matchingSongs_published g), Hrandom, H.
Qed.

(** A song that the scorer returns, in either variant, is a song of the
    catalog that has a non-empty URL: an unpublished song is never
    recommended, however often it was clicked. *)
Theorem recommended_song_is_published w songs b currentPageGenres r s :
  recommendSong w songs b currentPageGenres r = Some s
  \/ V0.recommendSong songs b currentPageGenres r = Some s ->
  In s songs /\ truthyUrl (pageUrl s) = true.
Proof.
  intros [H|H]; apply publishedSongs_in.
  - destruct (recommendSong_origin _ _ _ _ _ _ H) as [_ [Hp|[g Hm]]];
      [assumption|apply (matchingSongs_published g), Hm].
  - apply (recommendSong_origin_V0 _ _ _ _ _ H).
Qed.

Lemma recommended_song_is_published_witness :
  In songA [songDraft; songA] /\ truthyUrl (pageUrl songA) = true.
Proof.
  apply (recommended_song_is_published (demoWindow "/") [songDraft; songA]
           (mkBehavior [] [("Draft", 9)] []) ["praise"] (mkDraw 0 0) songA).
  left. reflexivity.
Defined.

(** ** The scores in closed form *)

Lemma page_genre_contribution_aux currentPageGenres genreScores tag :
  num tag (scoreCurrentGenres currentPageGenres genreScores)
  = num tag genreScores + 3 * occurrences tag currentPageGenres.
Proof.
  unfold scoreCurrentGenres, occurrences.
  destruct currentPageGenres as [|g l]; simpl (0 <? _)%nat; cbv iota.
  - simpl. lia.
  - apply num_bumpEach.
Qed.

(** Each occurrence of a tag among the genres read from the page adds 3 to
    the tag's genre score, whatever the scores were; a tag that the page
    does not list keeps its score. *)
Theorem page_genre_contribution currentPageGenres genreScores tag :
  num tag (scoreCurrentGenres currentPageGenres genreScores)
  = num tag genreScores + 3 * occurrences tag currentPageGenres
  /\ (~ In tag currentPageGenres ->
      num tag (scoreCurrentGenres currentPageGenres genreScores)
      = num tag genreScores).
Proof.
  split; [apply page_genre_contribution_aux|].
  intros Hnot. rewrite page_genre_contribution_aux. unfold occurrences.
  rewrite (proj1 (count_occ_not_In string_dec _ _) Hnot). lia.
Qed.

Lemma sumOver_cons {A} (f : A -> Z) a l :
  sumOver f (a :: l) = f a + sumOver f l.
Proof. reflexivity. Qed.

Lemma scoreClicks_num published clicked scores tag :
  num tag (fst (scoreClicks published clicked scores))
  = num tag (fst scores) + sumOver (clickGenreGain published tag) clicked
  /\ num tag (snd (scoreClicks published clicked scores))
     = num tag (snd scores) + sumOver (clickNeedGain published tag) clicked.
Proof.
  unfold scoreClicks. revert scores.
  induction clicked as [|[t c] l IH]; intros scores; [simpl; lia|].
  rewrite !sumOver_cons. cbn [fold_left].
  destruct (IH (scoreClick published scores (t, c))) as [Hg Hn].
  rewrite Hg, Hn. unfold scoreClick, clickGenreGain, clickNeedGain,
    occurrences. cbn [fst snd].
  destruct (find (fun s => String.eqb (title s) t) published); cbn [fst snd].
  - rewrite !num_bumpEach. lia.
  - lia.
Qed.

Lemma scoreTimes_num w published spent genreScores tag :
  num tag (scoreTimes w published spent genreScores)
  = num tag genreScores + sumOver (timeGenreGain w published tag) spent.
Proof.
  unfold scoreTimes. revert genreScores.
  induction spent as [|[p sec] l IH]; intros genreScores; [simpl; lia|].
  rewrite sumOver_cons. cbn [fold_left].
  rewrite IH. unfold scoreTime, timeGenreGain, occurrences. cbn [fst snd].
  rewrite num_bumpEach. lia.
Qed.

(** When the three loops are over, the genre score of a tag is the sum, over
    the clicks, of twice the count for each time the clicked song lists the
    tag, plus the sum, over the pages, of the whole minutes for each time a
    song of the page lists it, plus 3 for each time the page's metadata
    lists it; its need score is the sum of the click counts for each time
    the clicked song lists it as a need. *)
Theorem scores_closed_form w songs b currentPageGenres tag :
  num tag (fst (buildScores w songs b currentPageGenres))
  = sumOver (clickGenreGain (publishedSongs songs) tag) (clicks b)
    + sumOver (timeGenreGain w (publishedSongs songs) tag) (timeSpent b)
    + 3 * occurrences tag currentPageGenres
  /\ num tag (snd (buildScores w songs b currentPageGenres))
     = sumOver (clickNeedGain (publishedSongs songs) tag) (clicks b).
Proof.
  unfold buildScores. simpl.
  destruct (scoreClicks_num (publishedSongs songs) (clicks b) ([], []) tag)
    as [Hg Hn].
  split.
  - rewrite page_genre_contribution_aux, scoreTimes_num, Hg. reflexivity.
  - rewrite Hn. reflexivity.
Qed.

(** ** The clicks and the time spent, entry by entry *)

Lemma sumOver_nil {A} (f : A -> Z) : sumOver f [] = 0.
Proof. reflexivity. Qed.

Lemma scoreClicks_snoc published before entry scores :
  scoreClicks published (before ++ [entry]) scores
  = scoreClick published (scoreClicks published before scores) entry.
Proof. unfold scoreClicks. rewrite fold_left_app. reflexivity. Qed.

Lemma scoreTimes_snoc w published before entry genreScores :
  scoreTimes w published (before ++ [entry]) genreScores
  = scoreTime w published (scoreTimes w published before genreScores) entry.
Proof. unfold scoreTimes. rewrite fold_left_app. reflexivity. Qed.

Lemma scoreTime_num w published genreScores page seconds tag :
  num tag (scoreTime w published genreScores (page, seconds))
  = num tag genreScores
    + seconds / 60
      * Z.of_nat
          (list_sum
             (map (fun song => count_occ string_dec (tagsOf (genres song)) tag)
                  (filter (fun song => samePage w song page) published))).
Proof. unfold scoreTime. apply num_pageGenres. Qed.

Lemma scoreTime_num_V0 published genreScores page seconds tag :
  num tag (V0.scoreTime published genreScores (page, seconds))
  = num tag genreScores
    + seconds / 60
      * Z.of_nat
          (list_sum
             (map (fun song => count_occ string_dec (tagsOf (genres song)) tag)
                  (filter (V0.onPage page) published))).
Proof. unfold V0.scoreTime. apply num_pageGenres. Qed.

Lemma scoreTimes_num_V0 published spent genreScores tag :
  num tag (fold_left (V0.scoreTime published) spent genreScores)
  = num tag genreScores
    + sumOver (fun entry =>
                 snd entry / 60
                 * occurrences tag
                     (pageGenres (V0.onPage (fst entry)) published)) spent.
Proof.
  revert genreScores.
  induction spent as [|[p sec] l IH]; intros genreScores; [simpl; lia|].
  rewrite sumOver_cons. cbn [fold_left].
  rewrite IH. unfold V0.scoreTime, occurrences. cbn [fst snd].
  rewrite num_bumpEach. lia.
Qed.

Lemma buildScores_genre_num w songs b currentPageGenres tag :
  num tag (fst (buildScores w songs b currentPageGenres))
  = sumOver (clickGenreGain (publishedSongs songs) tag) (clicks b)
    + sumOver (timeGenreGain w (publishedSongs songs) tag) (timeSpent b)
    + 3 * occurrences tag currentPageGenres.
Proof.
  unfold buildScores. cbn [fst snd].
  destruct (scoreClicks_num (publishedSongs songs) (clicks b) ([], []) tag)
    as [Hg _].
  rewrite page_genre_contribution_aux, scoreTimes_num, Hg. reflexivity.
Qed.

Lemma buildScores_genre_num_V0 songs b currentPageGenres tag :
  num tag (fst (V0.buildScores songs b currentPageGenres))
  = sumOver (clickGenreGain (publishedSongs songs) tag) (clicks b)
    + sumOver (fun entry =>
                 snd entry / 60
                 * occurrences tag
                     (pageGenres (V0.onPage (fst entry))
                                 (publishedSongs songs))) (timeSpent b)
    + 3 * occurrences tag currentPageGenres.
Proof.
  unfold V0.buildScores. cbn [fst snd].
  destruct (scoreClicks_num (publishedSongs songs) (clicks b) ([], []) tag)
    as [Hg _].
  rewrite page_genre_contribution_aux, scoreTimes_num_V0, Hg. reflexivity.
Qed.

(** C3.  The loop over [behavior.clicks].  At an entry [(songTitle, count)]
    of the clicks, whatever the scores the loop started from: when [song] is
    the published song found under the title, the step over the entry adds
    [count * 2] to the genre score of a tag for each time the song lists it
    as a genre and [count] to its need score for each time the song lists it
    as a need; when no published song has the title, the step leaves both
    score objects as they were.  Over all the entries the loop adds the sum
    of these gains, and that sum is the share of the clicks in the genre
    scores that the scorer builds and the whole of its need scores. *)
Theorem click_contribution w songs b currentPageGenres tag :
  (forall before songTitle count after scores,
      clicks b = before ++ (songTitle, count) :: after ->
      (forall song,
          find (fun s => String.eqb (title s) songTitle) (publishedSongs songs)
          = Some song ->
          num tag (fst (scoreClicks (publishedSongs songs)
                          (before ++ [(songTitle, count)]) scores))
          = num tag (fst (scoreClicks (publishedSongs songs) before scores))
            + count * 2
              * Z.of_nat (count_occ string_dec (tagsOf (genres song)) tag)
          /\ num tag (snd (scoreClicks (publishedSongs songs)
                             (before ++ [(songTitle, count)]) scores))
             = num tag (snd (scoreClicks (publishedSongs songs) before scores))
               + count
                 * Z.of_nat
                     (count_occ string_dec (tagsOf (spiritualNeeds song)) tag))
      /\ ((forall s, In s (publishedSongs songs) -> title s <> songTitle) ->
          scoreClicks (publishedSongs songs) (before ++ [(songTitle, count)])
            scores
          = scoreClicks (publishedSongs songs) before scores))
  /\ (forall scores,
         num tag (fst (scoreClicks (publishedSongs songs) (clicks b) scores))
         = num tag (fst scores)
           + sumOver (clickGenreGain (publishedSongs songs) tag) (clicks b)
         /\ num tag (snd (scoreClicks (publishedSongs songs) (clicks b)
                            scores))
            = num tag (snd scores)
              + sumOver (clickNeedGain (publishedSongs songs) tag) (clicks b))
  /\ num tag (fst (buildScores w songs b currentPageGenres))
     = sumOver (clickGenreGain (publishedSongs songs) tag) (clicks b)
       + num tag (fst (buildScores w songs
                         (mkBehavior (pagesVisited b) [] (timeSpent b))
                         currentPageGenres))
  /\ num tag (snd (buildScores w songs b currentPageGenres))
     = sumOver (clickNeedGain (publishedSongs songs) tag) (clicks b).
Proof.
  split; [|split; [|split]].
  - intros before songTitle count after scores _.
    rewrite scoreClicks_snoc. unfold scoreClick at 1 2 3. split.
    + intros song Hfind. rewrite Hfind. cbn [fst snd].
      rewrite !num_bumpEach. split; reflexivity.
    + intros Hnone. rewrite (find_none_unmatched _ _ Hnone). reflexivity.
  - intros scores. apply scoreClicks_num.
  - rewrite !buildScores_genre_num. cbn [clicks timeSpent].
    rewrite sumOver_nil. lia.
  - unfold buildScores. cbn [snd].
    destruct (scoreClicks_num (publishedSongs songs) (clicks b) ([], []) tag)
      as [_ Hn].
    rewrite Hn. reflexivity.
Qed.

Lemma click_contribution_witness :
  let b := mkBehavior [] [("Draft", 5); ("Song A", 3)] [] in
  let scores := scoreClicks (publishedSongs [songDraft; songA]) (clicks b)
                  ([], []) in
  num "praise" (fst scores) = 6 /\ num "worship" (fst scores) = 6
  /\ num "joy" (snd scores) = 3
  /\ scoreClicks (publishedSongs [songDraft; songA]) [("Draft", 5)] ([], [])
     = ([], [])
  /\ num "joy" (snd (buildScores (demoWindow "/") [songDraft; songA] b [])) = 3.
Proof.
  intros b scores.
  destruct (click_contribution (demoWindow "/") [songDraft; songA] b []
              "praise") as (_ & Hp & _).
  destruct (click_contribution (demoWindow "/") [songDraft; songA] b []
              "worship") as (_ & Hw & _).
  destruct (click_contribution (demoWindow "/") [songDraft; songA] b []
              "joy") as (Hentry & Hj & _ & Hbuilt).
  split; [exact (proj1 (Hp ([], [])))|].
  split; [exact (proj1 (Hw ([], [])))|].
  split; [exact (proj2 (Hj ([], [])))|].
  split; [|exact Hbuilt].
  destruct (Hentry [] "Draft" 5 [("Song A", 3)] ([], []) eq_refl) as [_ Hnone].
  apply Hnone. intros s [<-|[]]. discriminate.
Defined.

(** C4.  The loop over [behavior.timeSpent].  At an entry [(page, seconds)]
    of the time spent, whatever the genre scores the loop started from: the
    step over the entry adds the whole minutes [seconds / 60] to the genre
    score of a tag for each time a published song whose URL matches the page
    lists it as a genre, and nothing for a time under a minute.  Over all
    the entries the loop adds the sum of these gains, and that sum is the
    share of the time spent in the genre scores that the scorer builds.  The
    first variant, which compares the URL with the page literally, does the
    same. *)
Theorem time_contribution w songs b currentPageGenres tag :
  (forall before page seconds after genreScores,
      timeSpent b = before ++ (page, seconds) :: after ->
      num tag (scoreTimes w (publishedSongs songs)
                 (before ++ [(page, seconds)]) genreScores)
      = num tag (scoreTimes w (publishedSongs songs) before genreScores)
        + seconds / 60
          * Z.of_nat
              (list_sum
                 (map (fun song =>
                         count_occ string_dec (tagsOf (genres song)) tag)
                      (filter (fun song => samePage w song page)
                              (publishedSongs songs))))
      /\ num tag (fold_left (V0.scoreTime (publishedSongs songs))
                    (before ++ [(page, seconds)]) genreScores)
         = num tag (fold_left (V0.scoreTime (publishedSongs songs)) before
                      genreScores)
           + seconds / 60
             * Z.of_nat
                 (list_sum
                    (map (fun song =>
                            count_occ string_dec (tagsOf (genres song)) tag)
                         (filter (V0.onPage page) (publishedSongs songs))))
      /\ (0 <= seconds < 60 ->
          num tag (scoreTimes w (publishedSongs songs)
                     (before ++ [(page, seconds)]) genreScores)
          = num tag (scoreTimes w (publishedSongs songs) before genreScores)
          /\ num tag (fold_left (V0.scoreTime (publishedSongs songs))
                        (before ++ [(page, seconds)]) genreScores)
             = num tag (fold_left (V0.scoreTime (publishedSongs songs)) before
                          genreScores)))
  /\ (forall genreScores,
         num tag (scoreTimes w (publishedSongs songs) (timeSpent b)
                    genreScores)
         = num tag genreScores
           + sumOver (timeGenreGain w (publishedSongs songs) tag)
                     (timeSpent b))
  /\ num tag (fst (buildScores w songs b currentPageGenres))
     = sumOver (timeGenreGain w (publishedSongs songs) tag) (timeSpent b)
       + num tag (fst (buildScores w songs
                         (mkBehavior (pagesVisited b) (clicks b) [])
                         currentPageGenres))
  /\ num tag (fst (V0.buildScores songs b currentPageGenres))
     = sumOver (fun entry =>
                  snd entry / 60
                  * occurrences tag
                      (pageGenres (V0.onPage (fst entry))
                                  (publishedSongs songs))) (timeSpent b)
       + num tag (fst (V0.buildScores songs
                         (mkBehavior (pagesVisited b) (clicks b) [])
                         currentPageGenres)).
Proof.
  split; [|split; [|split]].
  - intros before page seconds after genreScores _.
    rewrite scoreTimes_snoc, fold_left_app. cbn [fold_left].
    rewrite !scoreTime_num, !scoreTime_num_V0.
    split; [reflexivity|]. split; [reflexivity|].
    intros Hshort. rewrite (Z.div_small seconds 60 Hshort). lia.
  - intros genreScores. apply scoreTimes_num.
  - rewrite !buildScores_genre_num. cbn [clicks timeSpent].
    rewrite sumOver_nil. lia.
  - rewrite !buildScores_genre_num_V0. cbn [clicks timeSpent].
    rewrite sumOver_nil. lia.
Qed.

Lemma time_contribution_witness :
  let b := mkBehavior [] [] [("/about", 400); ("/songs/a", 125)] in
  num "hope" (scoreTimes (demoWindow "/") (publishedSongs [songHope])
                (timeSpent b) []) = 2
  /\ num "hope" (fst (buildScores (demoWindow "/") [songHope] b [])) = 2
  /\ num "hope" (fst (V0.buildScores [songHope] b [])) = 2
  /\ num "hope" (scoreTimes (demoWindow "/") (publishedSongs [songHope])
                   ([("/about", 400)] ++ [("/songs/a", 59)]) [("hope", 4)])
     = num "hope" (scoreTimes (demoWindow "/") (publishedSongs [songHope])
                     [("/about", 400)] [("hope", 4)]).
Proof.
  intros b.
  destruct (time_contribution (demoWindow "/") [songHope] b [] "hope")
    as (_ & Hloop & Hbuilt & Hbuilt0).
  destruct (time_contribution (demoWindow "/") [songHope]
              (mkBehavior [] [] [("/about", 400); ("/songs/a", 59)]) []
              "hope") as (Hentry & _).
  split; [exact (Hloop [])|]. split; [exact Hbuilt|]. split; [exact Hbuilt0|].
  destruct (Hentry [("/about", 400)] "/songs/a" 59 [] [("hope", 4)] eq_refl)
    as (_ & _ & Hshort).
  apply Hshort. lia.
Defined.

Lemma page_genre_contribution_witness :
  num "lament" (scoreCurrentGenres ["lament"] [("praise", 6)]) = 3
  /\ num "praise" (scoreCurrentGenres ["lament"] [("praise", 6)]) = 6.
Proof.
  destruct (page_genre_contribution ["lament"] [("praise", 6)] "lament")
    as [Hl _].
  destruct (page_genre_contribution ["lament"] [("praise", 6)] "praise")
    as [_ Hp].
  split; [exact Hl|]. apply Hp. intros [H|[]]. discriminate.
Defined.

(** ** Where the keys of the genre scores come from *)

Lemma obj_has_true_keys k o : obj_has k o = true -> In k (map fst o).
Proof.
  unfold obj_has. intros H. apply existsb_exists in H.
  destruct H as ([k1 v1] & Hin & E). simpl in E. apply String.eqb_eq in E.
  subst. apply (in_map fst _ _ Hin).
Qed.

Lemma keys_obj_set k v o k' :
  In k' (map fst (obj_set k v o)) <-> k' = k \/ In k' (map fst o).
Proof.
  unfold obj_set. destruct (obj_has k o) eqn:H.
  - rewrite obj_update_keys. split; [auto|].
    intros [->|Hin]; [apply obj_has_true_keys, H|assumption].
  - pose proof (Permutation_map fst (obj_create_perm k v o)) as Hp.
    simpl in Hp. split.
    + intros Hin. apply (Permutation_in _ (Permutation_sym Hp)) in Hin.
      destruct Hin; auto.
    + intros Hin. apply (Permutation_in _ Hp). destruct Hin; [left|right]; auto.
Qed.

Lemma keys_bumpEach keys d o k :
  In k (map fst (bumpEach keys d o)) <-> In k keys \/ In k (map fst o).
Proof.
  unfold bumpEach. revert o.
  induction keys as [|k1 keys IH]; intros o; simpl; [tauto|].
  rewrite IH. unfold bump. rewrite keys_obj_set. intuition auto.
Qed.

Lemma keys_scoreClicks published clicked scores k :
  In k (map fst (fst (scoreClicks published clicked scores))) ->
  In k (map fst (fst scores))
  \/ exists s, In s published /\ In k (tagsOf (genres s)).
Proof.
  unfold scoreClicks. revert scores.
  induction clicked as [|[t c] l IH]; intros scores; cbn [fold_left]; [auto|].
  intros H. destruct (IH _ H) as [Hk|Hk]; [|auto].
  unfold scoreClick in Hk.
  destruct (find (fun s => String.eqb (title s) t) published) as [song|] eqn:E;
    cbn [fst snd] in Hk; [|auto].
  apply keys_bumpEach in Hk. destruct Hk as [Hk|Hk]; [|auto].
  right. exists song. split; [apply (find_some _ _ E)|assumption].
Qed.

Lemma keys_pageGenres onPage published k :
  In k (pageGenres onPage published) ->
  exists s, In s published /\ In k (tagsOf (genres s)).
Proof.
  unfold pageGenres. intros H. apply in_flat_map in H.
  destruct H as (s & Hs & Hk). apply filter_In in Hs. exists s. tauto.
Qed.

Lemma keys_scoreTimes w published spent genreScores k :
  In k (map fst (scoreTimes w published spent genreScores)) ->
  In k (map fst genreScores)
  \/ exists s, In s published /\ In k (tagsOf (genres s)).
Proof.
  unfold scoreTimes. revert genreScores.
  induction spent as [|[p sec] l IH]; intros genreScores; cbn [fold_left];
    [auto|].
  intros H. destruct (IH _ H) as [Hk|Hk]; [|auto].
  unfold scoreTime in Hk. apply keys_bumpEach in Hk.
  destruct Hk as [Hk|Hk]; [|auto]. right. apply (keys_pageGenres _ _ _ Hk).
Qed.

Lemma keys_buildScores w songs b currentPageGenres k :
  In k (map fst (fst (buildScores w songs b currentPageGenres))) ->
  In k currentPageGenres
  \/ exists s, In s (publishedSongs songs) /\ In k (tagsOf (genres s)).
Proof.
  unfold buildScores, scoreCurrentGenres. cbn [fst snd]. intros H.
  assert (Hk : In k currentPageGenres
               \/ In k (map fst (scoreTimes w (publishedSongs songs)
                                   (timeSpent b)
                                   (fst (scoreClicks (publishedSongs songs)
                                           (clicks b) ([], [])))))).
  { destruct (0 <? List.length currentPageGenres)%nat; [|auto].
    apply keys_bumpEach in H. assumption. }
  destruct Hk as [Hk|Hk]; [auto|].
  destruct (keys_scoreTimes _ _ _ _ _ Hk) as [Hc|Hs]; [|auto].
  destruct (keys_scoreClicks _ _ _ _ Hc) as [[]|Hs]; auto.
Qed.

Lemma topGenre_key genreScores g :
  fst (topGenre genreScores) = Some g -> In g (map fst genreScores).
Proof.
  intros H. unfold topGenre in H.
  destruct (fold_firstBest (fun _ => false) snd fst topGenreStep
              topGenreStep_eq genreScores (None, -1))
    as [[Hf _]|(x & Hbest & Hf & _)]; rewrite Hf in H; simpl in H;
    [discriminate|].
  inversion H; subst. apply in_map. apply (firstBest_in _ _ _ _ Hbest).
Qed.

Lemma hasGenre_matching g published s :
  In s published -> In g (tagsOf (genres s)) ->
  In s (matchingSongs g published).
Proof.
  intros Hs Hg. unfold matchingSongs, hasGenre. apply filter_In.
  split; [assumption|]. apply existsb_exists. exists g.
  split; [assumption|apply String.eqb_refl].
Qed.

(** A top genre that no published song lists was read from the page's
    metadata: the clicks and the time spent only ever score tags of
    published songs.  So when the page declares no genre, the top genre
    always has a matching song. *)
Theorem unmatched_top_genre_is_page_genre w songs b currentPageGenres g :
  fst (topGenre (fst (buildScores w songs b currentPageGenres))) = Some g ->
  matchingSongs g (publishedSongs songs) = [] ->
  In g currentPageGenres.
Proof.
  intros Htop Hnone. apply topGenre_key, keys_buildScores in Htop.
  destruct Htop as [Hpage|(s & Hs & Hg)]; [assumption|].
  pose proof (hasGenre_matching g _ s Hs Hg) as Hin.
  rewrite Hnone in Hin. destruct Hin.
Qed.

Lemma unmatched_top_genre_is_page_genre_witness :
  In "gospel" ["gospel"].
Proof.
  apply (unmatched_top_genre_is_page_genre (demoWindow "/") [songA; songB]
           (mkBehavior [] [("Song A", 1)] []) ["gospel"] "gospel");
    reflexivity.
Defined.

(** ** When there is nothing to choose a top genre from *)

Lemma splitComma_not_nil s : splitComma s <> [].
Proof.
  destruct s as [|c r]; simpl; [discriminate|].
  destruct (Ascii.eqb c ","%char); [discriminate|].
  destruct (splitComma r); discriminate.
Qed.

Lemma tagsOf_not_nil s : tagsOf s <> [].
Proof.
  unfold tagsOf. pose proof (splitComma_not_nil (toLowerCase s)).
  destruct (splitComma (toLowerCase s)); [congruence|discriminate].
Qed.

Lemma obj_set_not_nil k v o : obj_set k v o <> [].
Proof.
  intros H. pose proof (obj_get_set_same k v o) as Hg. rewrite H in Hg.
  discriminate.
Qed.

Lemma bumpEach_nil keys d o : bumpEach keys d o = [] <-> keys = [] /\ o = [].
Proof.
  unfold bumpEach. revert o.
  induction keys as [|k keys IH]; intros o; simpl.
  - split; [auto|tauto].
  - rewrite IH. split; [|intros [H _]; discriminate].
    intros [_ H]. apply obj_set_not_nil in H. destruct H.
Qed.

Lemma find_title_none (published : list Song) t :
  find (fun s => String.eqb (title s) t) published = None
  <-> forall s, In s published -> title s <> t.
Proof.
  split; [|apply find_none_unmatched].
  intros H s Hs. apply String.eqb_neq. apply (find_none _ _ H s Hs).
Qed.

Lemma scoreClicks_nil published clicked scores :
  fst (scoreClicks published clicked scores) = []
  <-> fst scores = []
      /\ forall t c, In (t, c) clicked ->
                     forall s, In s published -> title s <> t.
Proof.
  unfold scoreClicks. revert scores.
  induction clicked as [|[t c] l IH]; intros scores; cbn [fold_left].
  - split; [intros H; split; [assumption|intros ? ? []]|tauto].
  - rewrite IH. unfold scoreClick.
    destruct (find (fun s => String.eqb (title s) t) published) as [song|]
      eqn:E; cbn [fst snd].
    + rewrite bumpEach_nil. split.
      * intros [[Ht _] _]. destruct (tagsOf_not_nil _ Ht).
      * intros [_ H]. exfalso. destruct (find_some _ _ E) as [Hin Ht].
        apply (H t c (or_introl eq_refl) song Hin).
        apply String.eqb_eq. assumption.
    + rewrite find_title_none in E. split.
      * intros [Hs H]. split; [assumption|].
        intros t' c' [Heq|Hin]; [inversion Heq; subst; assumption|eauto].
      * intros [Hs H]. split; [assumption|]. intros t' c' Hin.
        apply (H t' c'). right. assumption.
Qed.

Lemma pageGenres_nil onPage published :
  pageGenres onPage published = []
  <-> forall s, In s published -> onPage s = false.
Proof.
  unfold pageGenres. split.
  - intros H s Hs. destruct (onPage s) eqn:E; [|reflexivity].
    assert (Hin : In s (filter onPage published))
      by (apply filter_In; auto).
    destruct (tagsOf (genres s)) as [|t l] eqn:Et;
      [destruct (tagsOf_not_nil _ Et)|].
    assert (Ht : In t (flat_map (fun song => tagsOf (genres song))
                         (filter onPage published))).
    { apply in_flat_map. exists s. split; [assumption|].
      rewrite Et. left. reflexivity. }
    rewrite H in Ht. destruct Ht.
  - intros H. induction published as [|s l IH]; simpl; [reflexivity|].
    rewrite (H s) by (left; reflexivity). apply IH.
    intros s' Hs'. apply H. right. assumption.
Qed.

Lemma scoreTimes_nil w published spent genreScores :
  scoreTimes w published spent genreScores = []
  <-> genreScores = []
      /\ forall p sec, In (p, sec) spent ->
                       forall s, In s published -> samePage w s p = false.
Proof.
  unfold scoreTimes. revert genreScores.
  induction spent as [|[p sec] l IH]; intros genreScores; cbn [fold_left].
  - split; [intros H; split; [assumption|intros ? ? []]|tauto].
  - rewrite IH. unfold scoreTime. rewrite bumpEach_nil, pageGenres_nil.
    split.
    + intros [[Hp Hg] H]. split; [assumption|].
      intros p' sec' [Heq|Hin]; [inversion Heq; subst; assumption|eauto].
    + intros [Hg H]. split; [split; [|assumption]|].
      * apply (H p sec). left. reflexivity.
      * intros p' sec' Hin. apply (H p' sec'). right. assumption.
Qed.

(** The genre scores come out empty, and the scorer draws at random among
    the published songs, exactly when no clicked title is the title of a
    published song, no visited page is the page of a published song and the
    page declares no genre.  The counts play no part: a matched click or
    page creates the keys of its tags even when it adds 0. *)
Theorem no_scores_iff_nothing_matched w songs b currentPageGenres :
  fst (buildScores w songs b currentPageGenres) = []
  <-> (forall t c, In (t, c) (clicks b) ->
                   forall s, In s (publishedSongs songs) -> title s <> t)
      /\ (forall p sec, In (p, sec) (timeSpent b) ->
                        forall s, In s (publishedSongs songs) ->
                                  samePage w s p = false)
      /\ currentPageGenres = [].
Proof.
  unfold buildScores, scoreCurrentGenres. cbn [fst snd].
  destruct currentPageGenres as [|g l].
  - change (0 <? List.length (@nil string))%nat with false. cbv iota.
    rewrite scoreTimes_nil, scoreClicks_nil. cbn [fst]. tauto.
  - change (0 <? List.length (g :: l))%nat with true. cbv iota.
    rewrite bumpEach_nil. split; [intros [H _]; discriminate|].
    intros (_ & _ & H). discriminate.
Qed.

Lemma no_scores_iff_nothing_matched_witness :
  fst (buildScores (demoWindow "/") [songA; songDraft]
         (mkBehavior [("/", 5)] [("Draft", 7)] [("/about", 300)]) []) = []
  /\ fst (buildScores (demoWindow "/") [songA; songDraft]
            (mkBehavior [] [] [("/songs/a", 20)]) []) <> [].
Proof.
  split.
  - apply (no_scores_iff_nothing_matched (demoWindow "/") [songA; songDraft]).
    split; [|split; [|reflexivity]].
    + intros t c [Heq|[]] s [<-|[]]. inversion Heq. discriminate.
    + intros p sec [Heq|[]] s [<-|[]]. inversion Heq. reflexivity.
  - intros H.
    apply (no_scores_iff_nothing_matched (demoWindow "/") [songA; songDraft])
      in H.
    destruct H as (_ & H & _).
    specialize (H "/songs/a" 20 (or_introl eq_refl) songA (or_introl eq_refl)).
    discriminate.
Defined.

(** ** What the tracking operations count *)

Lemma num_set k v o k' :
  num k' (obj_set k v o) = if String.eqb k' k then v else num k' o.
Proof.
  unfold num. destruct (String.eqb k' k) eqn:E.
  - apply String.eqb_eq in E. subst. rewrite obj_get_set_same. reflexivity.
  - apply String.eqb_neq in E.
    rewrite obj_get_set_other by congruence. reflexivity.
Qed.

Lemma num_set_add k d o k' :
  num k' (obj_set k (num k o + d) o)
  = num k' o + (if String.eqb k' k then d else 0).
Proof.
  rewrite num_set. destruct (String.eqb k' k) eqn:E;
    [apply String.eqb_eq in E; subst; reflexivity|lia].
Qed.

Lemma trackPageVisit_num w b k :
  num k (pagesVisited (trackPageVisit w b))
  = num k (pagesVisited b) + (if String.eqb k (pathname w) then 1 else 0).
Proof. simpl. apply num_set_add. Qed.

Lemma trackClick_num songTitle b k :
  num k (clicks (trackClick songTitle b))
  = num k (clicks b) + (if String.eqb k songTitle then 1 else 0).
Proof.
  unfold trackClick. cbn [clicks].
  pose proof (num_set_add songTitle 1 (clicks b) k) as Hset.
  unfold num in Hset at 2.
  destruct (obj_get songTitle (clicks b)) as [n|] eqn:G.
  - destruct (Z.eqb_spec n 0) as [->|Hn]; exact Hset.
  - exact Hset.
Qed.

Lemma trackTimeSpent_num w now start b k :
  num k (timeSpent (trackTimeSpent w now start b))
  = num k (timeSpent b)
    + (if String.eqb k (pathname w) then (now - start) / 1000 else 0).
Proof. simpl. apply num_set_add. Qed.

(** A page visit and a click add exactly 1, the unload handler exactly the
    whole seconds elapsed, to the counter of the page or of the title, a
    counter that is missing (or holds 0) counting for 0; no other counter of
    the mapping changes. *)
Theorem tracking_counts_exactly w songTitle now start b k :
  num k (pagesVisited (trackPageVisit w b))
  = num k (pagesVisited b) + (if String.eqb k (pathname w) then 1 else 0)
  /\ num k (clicks (trackClick songTitle b))
     = num k (clicks b) + (if String.eqb k songTitle then 1 else 0)
  /\ num k (timeSpent (trackTimeSpent w now start b))
     = num k (timeSpent b)
       + (if String.eqb k (pathname w) then (now - start) / 1000 else 0).
Proof.
  split; [|split].
  - apply trackPageVisit_num.
  - apply trackClick_num.
  - apply trackTimeSpent_num.
Qed.

Lemma sumValues_perm o o' : Permutation o o' -> sumValues o = sumValues o'.
Proof.
  induction 1 as [|[k v] l l' _ IH|[k1 v1] [k2 v2] l|l1 l2 l3 _ IH1 _ IH2].
  - reflexivity.
  - rewrite !sumValues_cons. lia.
  - rewrite !sumValues_cons. lia.
  - congruence.
Qed.

Lemma sumValues_update k v o :
  obj_has k o = true ->
  sumValues (obj_update k v o) = sumValues o - num k o + v.
Proof.
  induction o as [|[k1 v1] r IH]; [discriminate|].
  unfold num. simpl. destruct (String.eqb k k1) eqn:E; simpl.
  - intros _. rewrite !sumValues_cons. lia.
  - intros H. rewrite !sumValues_cons, IH by assumption. unfold num. lia.
Qed.

Lemma sumValues_set k v o :
  sumValues (obj_set k v o) = sumValues o - num k o + v.
Proof.
  unfold obj_set. destruct (obj_has k o) eqn:H.
  - apply sumValues_update, H.
  - rewrite <- (sumValues_perm _ _ (obj_create_perm k v o)), sumValues_cons.
    apply obj_has_get in H. unfold num. rewrite H. lia.
Qed.

Lemma trackClick_total t b :
  sumValues (clicks (trackClick t b)) = sumValues (clicks b) + 1.
Proof.
  unfold trackClick. cbn [clicks].
  destruct (obj_get t (clicks b)) as [n|] eqn:G.
  - destruct (Z.eqb_spec n 0) as [->|Hn]; rewrite sumValues_set;
      rewrite (num_of_get _ _ _ G); lia.
  - rewrite sumValues_set. unfold num. rewrite G. lia.
Qed.

Lemma trackPageVisit_total w b :
  sumValues (pagesVisited (trackPageVisit w b))
  = sumValues (pagesVisited b) + 1.
Proof. simpl. rewrite sumValues_set. lia. Qed.

(** The two totals that the gate reads count the events of the session:
    after any sequence of tracked events, the visits sum to what they were
    plus the number of page visits and the clicks to what they were plus
    the number of tracked clicks. *)
Theorem session_totals events b :
  sumValues (pagesVisited (session events b))
  = sumValues (pagesVisited b)
    + Z.of_nat (List.length (filter isVisit events))
  /\ sumValues (clicks (session events b))
     = sumValues (clicks b) + Z.of_nat (List.length (filter isClick events)).
Proof.
  unfold session. revert b.
  induction events as [|e l IH]; intros b; [simpl; lia|].
  cbn [fold_left]. destruct (IH (track b e)) as [Hp Hc]. rewrite Hp, Hc.
  destruct e as [w|t|w now start]; cbn [track filter isVisit isClick].
  - rewrite trackPageVisit_total. cbn [List.length clicks trackPageVisit]. lia.
  - rewrite trackClick_total. cbn [List.length pagesVisited trackClick]. lia.
  - cbn [pagesVisited clicks trackTimeSpent]. lia.
Qed.

(** On a page load the visit is counted first: the timer of the scorer is
    set exactly when the restored record holds at least 2 earlier visits
    and at least 2 clicks; clicks made on the page being loaded come too
    late for its own recommendation. *)
Theorem page_load_gate w loaded :
  fst (initialize w loaded) = trackPageVisit w loaded
  /\ (snd (initialize w loaded) = Scheduled 5000
      <-> 2 <= sumValues (pagesVisited loaded)
          /\ 2 <= sumValues (clicks loaded))
  /\ (snd (initialize w loaded) = NotEnough
      <-> sumValues (pagesVisited loaded) < 2
          \/ sumValues (clicks loaded) < 2).
Proof.
  unfold initialize, triggerRecommendation, minPagesVisited, minSongsClicked.
  cbn [fst snd]. rewrite trackPageVisit_total. cbn [clicks trackPageVisit].
  split; [reflexivity|].
  destruct (Z.ltb_spec (sumValues (pagesVisited loaded) + 1) 3);
    destruct (Z.ltb_spec (sumValues (clicks loaded)) 2); simpl;
    (split; split; intros ?; try discriminate; try reflexivity; lia).
Qed.

Lemma page_load_gate_witness :
  snd (initialize (demoWindow "/songs/b")
         (session [PageVisit (demoWindow "/"); SongClick "Song A";
                   PageVisit (demoWindow "/songs/a"); SongClick "Song B"]
            emptyBehavior)) = Scheduled 5000.
Proof.
  destruct (page_load_gate (demoWindow "/songs/b")
              (session [PageVisit (demoWindow "/"); SongClick "Song A";
                        PageVisit (demoWindow "/songs/a"); SongClick "Song B"]
                 emptyBehavior)) as (_ & [_ H] & _).
  apply H. vm_compute. split; discriminate.
Defined.

(** ** Tags *)

Lemma lowerChar_idem c : lowerChar (lowerChar c) = lowerChar c.
Proof. destruct c as [[] [] [] [] [] [] [] []]; reflexivity. Qed.

Lemma lowerChar_comma c :
  Ascii.eqb (lowerChar c) ","%char = Ascii.eqb c ","%char.
Proof. destruct c as [[] [] [] [] [] [] [] []]; reflexivity. Qed.

Lemma toLowerCase_idem s : toLowerCase (toLowerCase s) = toLowerCase s.
Proof.
  induction s as [|c r IH]; simpl; [reflexivity|].
  rewrite lowerChar_idem, IH. reflexivity.
Qed.

Lemma commas_toLowerCase s : commas (toLowerCase s) = commas s.
Proof.
  induction s as [|c r IH]; simpl; [reflexivity|].
  rewrite lowerChar_comma, IH. reflexivity.
Qed.

Lemma splitComma_length s : List.length (splitComma s) = S (commas s).
Proof.
  induction s as [|c r IH]; simpl; [reflexivity|].
  destruct (Ascii.eqb c ","%char); simpl; [congruence|].
  destruct (splitComma r); simpl in *; congruence.
Qed.

Lemma splitComma_lower s :
  toLowerCase s = s -> Forall (fun p => toLowerCase p = p) (splitComma s).
Proof.
  induction s as [|c r IH]; simpl; intros H.
  - constructor; [reflexivity|constructor].
  - inversion H as [[Hc Hr]]. rewrite Hc, Hr. specialize (IH Hr).
    destruct (Ascii.eqb c ","%char).
    + constructor; [reflexivity|assumption].
    + destruct (splitComma r) as [|p l]; constructor; simpl;
        try constructor; try congruence.
      * inversion IH; subst. congruence.
      * inversion IH; assumption.
Qed.

Lemma trimStart_lower s : toLowerCase s = s -> toLowerCase (trimStart s) = trimStart s.
Proof.
  induction s as [|c r IH]; simpl; intros H; [reflexivity|].
  inversion H as [[Hc Hr]]. rewrite Hc, Hr.
  destruct (isWhiteSpace c); [auto|]. simpl. congruence.
Qed.

Lemma trimEnd_lower s : toLowerCase s = s -> toLowerCase (trimEnd s) = trimEnd s.
Proof.
  induction s as [|c r IH]; simpl; intros H; [reflexivity|].
  inversion H as [[Hc Hr]]. rewrite Hc, Hr.
  destruct (isWhiteSpace c && String.eqb (trimEnd r) EmptyString);
    [reflexivity|]. simpl. rewrite IH by assumption. congruence.
Qed.

Lemma trimEnd_idem s : trimEnd (trimEnd s) = trimEnd s.
Proof.
  induction s as [|c r IH]; simpl; [reflexivity|].
  destruct (isWhiteSpace c && String.eqb (trimEnd r) EmptyString) eqn:E;
    [reflexivity|]. simpl. rewrite IH, E. reflexivity.
Qed.

Lemma trimStart_fixed s :
  match s with
  | EmptyString => True
  | String c _ => isWhiteSpace c = false
  end -> trimStart s = s.
Proof. destruct s as [|c r]; simpl; [reflexivity|]. intros ->. reflexivity. Qed.

Lemma trimStart_head s :
  match trimStart s with
  | EmptyString => True
  | String c _ => isWhiteSpace c = false
  end.
Proof.
  induction s as [|c r IH]; simpl; [exact I|].
  destruct (isWhiteSpace c) eqn:E; [assumption|]. assumption.
Qed.

Lemma trimEnd_head s :
  match s with
  | EmptyString => True
  | String c _ => isWhiteSpace c = false
  end ->
  match trimEnd s with
  | EmptyString => True
  | String c _ => isWhiteSpace c = false
  end.
Proof.
  destruct s as [|c r]; simpl; [auto|]. intros E. rewrite E. simpl. assumption.
Qed.

Lemma trim_idem s : trim (trim s) = trim s.
Proof.
  unfold trim.
  rewrite (trimStart_fixed (trimEnd (trimStart s)))
    by apply trimEnd_head, trimStart_head.
  apply trimEnd_idem.
Qed.

Lemma trim_lower s : toLowerCase s = s -> toLowerCase (trim s) = trim s.
Proof. intros H. unfold trim. apply trimEnd_lower, trimStart_lower, H. Qed.

Lemma tags_are_normalised_aux s :
  Forall (fun tag => toLowerCase tag = tag /\ trim tag = tag) (tagsOf s).
Proof.
  unfold tagsOf. pose proof (splitComma_lower _ (toLowerCase_idem s)) as H.
  induction H as [|p l Hp _ IH]; simpl; constructor; [|assumption].
  split; [apply trim_lower, Hp|apply trim_idem].
Qed.

(** The tags read from a comma-separated text: there is one more tag than
    there are commas, so at least one, the empty tag included; every tag is
    in lower case and has no white space at either end; and the case of the
    text does not matter. *)
Theorem tags_are_normalised s :
  List.length (tagsOf s) = S (commas s)
  /\ Forall (fun tag => toLowerCase tag = tag /\ trim tag = tag) (tagsOf s)
  /\ tagsOf (toLowerCase s) = tagsOf s.
Proof.
  split; [|split]; [unfold tagsOf| |unfold tagsOf].
  - rewrite length_map, splitComma_length, commas_toLowerCase. reflexivity.
  - apply tags_are_normalised_aux.
  - rewrite toLowerCase_idem. reflexivity.
Qed.

(** ** The card is shown once *)

Lemma getItem_setItem_same k v st : getItem k (setItem k v st) = Some v.
Proof.
  induction st as [|[k' v'] r IH]; simpl.
  - rewrite String.eqb_refl. reflexivity.
  - destruct (String.eqb k k') eqn:E; simpl; rewrite E; auto.
Qed.

Lemma getItem_setItem_other k k' v st :
  k <> k' -> getItem k' (setItem k v st) = getItem k' st.
Proof.
  intros Hne. induction st as [|[k1 v1] r IH]; simpl.
  - apply not_eq_sym, String.eqb_neq in Hne. rewrite Hne. reflexivity.
  - destruct (String.eqb k k1) eqn:E; simpl.
    + apply String.eqb_eq in E. subst k1.
      apply not_eq_sym, String.eqb_neq in Hne. rewrite Hne. reflexivity.
    + rewrite IH. reflexivity.
Qed.

Lemma getItem_removeItem_same k st : getItem k (removeItem k st) = None.
Proof.
  unfold removeItem. induction st as [|[k' v'] r IH]; simpl; [reflexivity|].
  destruct (String.eqb k k') eqn:E; simpl; [assumption|]. rewrite E. assumption.
Qed.

Lemma flagSet_after_set st c :
  flagSet (mkSession (setItem shownKey "true" st) c).
Proof. unfold flagSet. simpl. rewrite getItem_setItem_same. reflexivity. Qed.

Lemma act_keeps_flag a s :
  isReset a = false -> flagSet s -> flagSet (act s a) /\ cards (act s a) = cards s.
Proof.
  intros Ha Hf. destruct a as [x| |text|]; simpl in *; try discriminate.
  - unfold showRecommendation. unfold flagSet in Hf. rewrite Hf. auto.
  - split; [apply flagSet_after_set|reflexivity].
  - split; [|reflexivity]. unfold flagSet, storeBehavior. simpl.
    rewrite getItem_setItem_other by discriminate. exact Hf.
Qed.

Lemma acts_keep_cards actions s :
  forallb (fun a => negb (isReset a)) actions = true -> flagSet s ->
  cards (fold_left act actions s) = cards s.
Proof.
  revert s. induction actions as [|a l IH]; intros s Hl Hf; simpl;
    [reflexivity|].
  simpl in Hl. apply andb_true_iff in Hl. destruct Hl as [Ha Hl].
  apply negb_true_iff in Ha.
  destruct (act_keeps_flag a s Ha Hf) as [Hf' Hc].
  rewrite (IH _ Hl Hf'). assumption.
Qed.

(** Between two resets of the flag at most one card is built, whatever is
    recommended, closed or saved in between, and none when the flag was
    already set; a recommendation that comes after the first one changes
    nothing; and after a reset the next recommendation gets its card. *)
Theorem card_shown_at_most_once actions s :
  forallb (fun a => negb (isReset a)) actions = true ->
  (exists shown, cards (fold_left act actions s) = cards s ++ shown
                 /\ (List.length shown <= 1)%nat
                 /\ (flagSet s -> shown = []))
  /\ (forall x y, showRecommendation y (showRecommendation x s)
                  = showRecommendation x s)
  /\ (forall x, cards (showRecommendation x (resetRecommendationFlag s))
                = cards s ++ [x]).
Proof.
  intros Hl. split; [|split].
  - revert s Hl. induction actions as [|a l IH]; intros s Hl; simpl.
    + exists []. rewrite app_nil_r. auto.
    + simpl in Hl. apply andb_true_iff in Hl. destruct Hl as [Ha Hl].
      apply negb_true_iff in Ha.
      destruct (truthyItem (getItem shownKey (sessionStorage s))) eqn:Hf.
      * exists []. rewrite app_nil_r. repeat split; auto.
        destruct (act_keeps_flag a s Ha Hf) as [Hf' Hc].
        rewrite (acts_keep_cards l _ Hl Hf'). assumption.
      * destruct a as [x| |text|]; simpl in *; try discriminate.
        -- exists [x]. unfold showRecommendation. rewrite Hf.
           rewrite (acts_keep_cards l _ Hl (flagSet_after_set _ _)).
           simpl. repeat split; auto. unfold flagSet. congruence.
        -- exists []. rewrite app_nil_r.
           unfold closeCard. rewrite (acts_keep_cards l _ Hl (flagSet_after_set _ _)).
           simpl. repeat split; auto.
        -- destruct (IH (storeBehavior text s) Hl) as (shown & Hc & Hlen & _).
           exists shown. repeat split; try assumption.
           unfold flagSet. congruence.
  - intros x y. unfold showRecommendation.
    destruct (truthyItem (getItem shownKey (sessionStorage s))) eqn:Hf;
      simpl; rewrite ?Hf, ?getItem_setItem_same; reflexivity.
  - intros x. unfold showRecommendation, resetRecommendationFlag. simpl.
    rewrite getItem_removeItem_same. reflexivity.
Qed.

Lemma card_shown_at_most_once_witness :
  cards (fold_left act [Save "{}"; Show songA; Close; Save "{..}"; Show songB]
           (mkSession [] []))
  = [songA]
  /\ exists shown,
       cards (fold_left act
                [Save "{}"; Show songA; Close; Save "{..}"; Show songB]
                (mkSession [] []))
       = [] ++ shown
       /\ (List.length shown <= 1)%nat
       /\ (flagSet (mkSession [] []) -> shown = []).
Proof.
  split; [reflexivity|].
  apply (card_shown_at_most_once
           [Save "{}"; Show songA; Close; Save "{..}"; Show songB]
           (mkSession [] [])).
  reflexivity.
Defined.

(** ** The genres read from the page *)

Lemma lowerAll_lower items l :
  lowerAll items = Some l -> Forall (fun g => toLowerCase g = g) l.
Proof.
  revert l. induction items as [|g r IH]; simpl; intros l H.
  - inversion H. constructor.
  - destruct g; simpl in H; try discriminate.
    destruct (lowerAll r) as [l'|]; [|discriminate].
    inversion H; subst. constructor; [apply toLowerCase_idem|auto].
Qed.

Lemma lowerAll_strings texts :
  lowerAll (map JString texts) = Some (map toLowerCase texts).
Proof.
  induction texts as [|t l IH]; simpl; [reflexivity|]. rewrite IH. reflexivity.
Qed.

Lemma lowerAll_throws items g :
  In g items -> (forall t, g <> JString t) -> lowerAll items = None.
Proof.
  induction items as [|x r IH]; simpl; [tauto|].
  intros [->|Hin] Hg.
  - destruct g; try reflexivity. destruct (Hg s eq_refl).
  - destruct (lowerOf x); [|reflexivity]. rewrite (IH Hin Hg). reflexivity.
Qed.

Lemma genresOfScript_lower data l :
  genresOfScript data = Some l -> Forall (fun g => toLowerCase g = g) l.
Proof.
  unfold genresOfScript.
  assert (Hnil : forall l0, Some (@nil string) = Some l0 ->
                            Forall (fun g => toLowerCase g = g) l0)
    by (intros l0 H; inversion H; constructor).
  destruct data as [[| | | | |members]|]; try discriminate; try apply Hnil.
  destruct (member "genre" members) as [g|]; [|apply Hnil].
  destruct (truthyJson g); [|apply Hnil].
  destruct g; simpl; try discriminate.
  - intros H. inversion H. constructor; [apply toLowerCase_idem|constructor].
  - apply lowerAll_lower.
Qed.

(** Every genre read from the page is in lower case, in the order of the
    scripts; a script that cannot be parsed or whose handling throws adds
    nothing and takes nothing from the others; a genre given as a list of
    texts adds them all, and a list with an item that is not a text adds
    none of them. *)
Theorem schema_genres scripts :
  Forall (fun g => toLowerCase g = g) (getGenresFromSchema scripts)
  /\ (forall before data after,
         scripts = before ++ data :: after ->
         genresOfScript data = None ->
         getGenresFromSchema scripts
         = getGenresFromSchema before ++ getGenresFromSchema after)
  /\ (forall members texts,
         member "genre" members = Some (JArray (map JString texts)) ->
         genresOfScript (Some (JObject members))
         = Some (map toLowerCase texts))
  /\ (forall members items g,
         member "genre" members = Some (JArray items) ->
         In g items -> (forall t, g <> JString t) ->
         genresOfScript (Some (JObject members)) = None).
Proof.
  split; [|split; [|split]].
  - unfold getGenresFromSchema. apply Forall_flat_map.
    apply Forall_forall. intros data _.
    destruct (genresOfScript data) as [l|] eqn:E; [|constructor].
    apply (genresOfScript_lower _ _ E).
  - intros before data after -> Hthrow. unfold getGenresFromSchema.
    rewrite flat_map_app. simpl. rewrite Hthrow. reflexivity.
  - intros members texts Hm. unfold genresOfScript. rewrite Hm. simpl.
    apply lowerAll_strings.
  - intros members items g Hm Hin Hg. unfold genresOfScript. rewrite Hm.
    simpl. apply (lowerAll_throws _ g Hin Hg).
Qed.

Lemma schema_genres_witness :
  getGenresFromSchema
    [Some (JObject [("@type", JString "MusicRecording");
                    ("genre", JArray [JString "Praise"; JString "Worship"])]);
     None;
     Some (JObject [("genre", JArray [JString "Hope"; JNumber 7])]);
     Some (JObject [("genre", JString "Lament")])]
  = getGenresFromSchema
      [Some (JObject [("@type", JString "MusicRecording");
                      ("genre", JArray [JString "Praise"; JString "Worship"])])]
    ++ getGenresFromSchema
         [Some (JObject [("genre", JArray [JString "Hope"; JNumber 7])]);
          Some (JObject [("genre", JString "Lament")])]
  /\ getGenresFromSchema
       [Some (JObject [("@type", JString "MusicRecording");
                       ("genre", JArray [JString "Praise"; JString "Worship"])]);
        None;
        Some (JObject [("genre", JArray [JString "Hope"; JNumber 7])]);
        Some (JObject [("genre", JString "Lament")])]
     = ["praise"; "worship"; "lament"].
Proof.
  split; [|reflexivity].
  eapply (schema_genres _); reflexivity.
Defined.

(** The tags of the songs are trimmed and the genres of the page are not:
    a genre of the page that has white space at one end, or a capital
    letter, is listed by no song, so that no song matches it. *)
Theorem untrimmed_genre_matches_no_song g published :
  trim g <> g \/ toLowerCase g <> g ->
  matchingSongs g published = [].
Proof.
  intros Hg. unfold matchingSongs.
  induction published as [|s l IH]; simpl; [reflexivity|].
  rewrite IH. destruct (hasGenre g s) eqn:E; [|reflexivity]. exfalso.
  unfold hasGenre in E. apply existsb_exists in E.
  destruct E as (t & Ht & Heq). apply String.eqb_eq in Heq. subst t.
  pose proof (tags_are_normalised_aux (genres s)) as Hall.
  rewrite Forall_forall in Hall. destruct (Hall g Ht) as [Hl Htrim].
  destruct Hg; contradiction.
Qed.

Lemma untrimmed_genre_matches_no_song_witness :
  matchingSongs " praise" [songA; songB] = [].
Proof.
  apply (untrimmed_genre_matches_no_song " praise" [songA; songB]).
  left. discriminate.
Defined.

(** ** The search *)

Lemma prefix_append sub s :
  String.prefix sub s = true <-> exists b, s = String.append sub b.
Proof.
  revert s. induction sub as [|a sub IH]; intros s.
  - destruct s; simpl; split; eauto.
  - destruct s as [|c s]; simpl.
    + split; [discriminate|]. intros [b Hb]. discriminate.
    + destruct (ascii_dec a c) as [->|Hne].
      * rewrite IH. split; intros [b Hb]; exists b; congruence.
      * split; [discriminate|]. intros [b Hb]. congruence.
Qed.

Lemma includes_nil sub :
  includes sub EmptyString
  = if String.prefix sub EmptyString then true else false.
Proof. reflexivity. Qed.

Lemma includes_cons sub c s :
  includes sub (String c s)
  = if String.prefix sub (String c s) then true else includes sub s.
Proof. reflexivity. Qed.

Lemma includes_append sub s :
  includes sub s = true
  <-> exists a b, s = String.append a (String.append sub b).
Proof.
  induction s as [|c s IH].
  - rewrite includes_nil.
    destruct (String.prefix sub EmptyString) eqn:E.
    + split; [|auto]. intros _. apply prefix_append in E.
      destruct E as [b Hb]. exists EmptyString, b. assumption.
    + split; [discriminate|]. intros (a & b & H).
      destruct a; [|discriminate]. simpl in H.
      assert (String.prefix sub EmptyString = true)
        by (apply prefix_append; eauto).
      congruence.
  - rewrite includes_cons.
    destruct (String.prefix sub (String c s)) eqn:E.
    + split; [|auto]. intros _. apply prefix_append in E.
      destruct E as [b Hb]. exists EmptyString, b. assumption.
    + rewrite IH. split.
      * intros (a & b & ->). exists (String c a), b. reflexivity.
      * intros (a & b & H). destruct a as [|c' a]; simpl in H.
        -- assert (String.prefix sub (String c s) = true)
             by (apply prefix_append; eauto).
           congruence.
        -- inversion H. eauto.
Qed.

Lemma matchesQuery_texts lower input e :
  matchesQuery lower input e = true
  <-> exists text, In text (searchedTexts e)
                   /\ includes input (lower text) = true.
Proof.
  unfold matchesQuery, searchedTexts. rewrite !orb_true_iff. simpl. split.
  - intros [[[[H|H]|H]|H]|H]; eexists; (split; [|exact H]); auto 6.
  - intros (text & [<-|[<-|[<-|[<-|[<-|[]]]]]] & H); auto 6.
Qed.

Lemma searchSongs_in lower value catalog e :
  In e (searchSongs lower value catalog)
  <-> In e catalog /\ lower value <> EmptyString
      /\ matchesQuery lower (lower value) e = true.
Proof.
  unfold searchSongs.
  destruct (String.eqb_spec (lower value) EmptyString) as [E|E].
  - simpl. tauto.
  - rewrite filter_In. tauto.
Qed.

Lemma includes_refl s : includes s s = true.
Proof. apply includes_append. exists EmptyString, EmptyString. simpl.
  induction s as [|c s IH]; simpl; congruence.
Qed.

(** Whatever the browser's lower-casing [lower] does to a text: the search
    returns, in the order of the catalog, exactly the entries of which one
    of the five texts, lowered, contains the lowered input, and nothing when
    the lowered input is empty; so an entry is found by an input that lowers
    to the same text as one of its five texts. *)
Theorem search_finds_by_containment lower value catalog :
  (forall e,
      In e (searchSongs lower value catalog)
      <-> In e catalog /\ lower value <> EmptyString
          /\ exists text a b,
               In text (searchedTexts e)
               /\ lower text
                  = String.append a (String.append (lower value) b))
  /\ (lower value = EmptyString -> searchSongs lower value catalog = [])
  /\ (forall e text,
         In e catalog -> In text (searchedTexts e) ->
         lower text = lower value -> lower value <> EmptyString ->
         In e (searchSongs lower value catalog))
  /\ (forall first rest,
         catalog = first ++ rest ->
         searchSongs lower value catalog
         = searchSongs lower value first ++ searchSongs lower value rest).
Proof.
  split; [|split; [|split]].
  - intros e. rewrite searchSongs_in, matchesQuery_texts. split.
    + intros (Hc & Hv & text & Ht & Hi). apply includes_append in Hi.
      destruct Hi as (a & b & Hab). eauto 8.
    + intros (Hc & Hv & text & a & b & Ht & Hab). repeat split; try assumption.
      exists text. split; [assumption|]. apply includes_append. eauto.
  - intros Hempty. unfold searchSongs. rewrite Hempty. reflexivity.
  - intros e text Hc Ht Hsame Hv. apply searchSongs_in.
    repeat split; try assumption. apply matchesQuery_texts.
    exists text. split; [assumption|]. rewrite Hsame. apply includes_refl.
  - intros first rest ->. unfold searchSongs.
    destruct (String.eqb (lower value) EmptyString); [reflexivity|].
    apply filter_app.
Qed.

Lemma search_finds_by_containment_witness :
  In (mkEntry songA "Rejoice always" "gladness, psalm")
     (searchSongs toLowerCase "SONG a"
        [mkEntry songB "Be comforted" "tears";
         mkEntry songA "Rejoice always" "gladness, psalm"])
  /\ searchSongs toLowerCase "joy"
       [mkEntry songB "Be comforted" "tears";
        mkEntry songA "Rejoice always" "gladness, psalm"]
     = [mkEntry songB "Be comforted" "tears";
        mkEntry songA "Rejoice always" "gladness, psalm"].
Proof.
  destruct (search_finds_by_containment toLowerCase "SONG a"
              [mkEntry songB "Be comforted" "tears";
               mkEntry songA "Rejoice always" "gladness, psalm"])
    as (_ & _ & Hfound & _).
  split; [|reflexivity].
  apply (Hfound _ "Song A");
    [right; left; reflexivity|left; reflexivity|reflexivity|discriminate].
Defined.

(** ** The click handler *)

Lemma find_first {A} (f : A -> bool) pre x post :
  Forall (fun y => f y = false) pre -> f x = true ->
  find f (pre ++ x :: post) = Some x.
Proof.
  intros Hpre Hx. induction Hpre as [|y l Hy _ IH]; simpl.
  - rewrite Hx. reflexivity.
  - rewrite Hy. assumption.
Qed.

Lemma find_exists {A} (f : A -> bool) l x :
  In x l -> f x = true -> exists y, find f l = Some y.
Proof.
  intros Hin Hx. destruct (find f l) as [y|] eqn:E; [eauto|].
  rewrite (find_none _ _ E x Hin) in Hx. discriminate.
Qed.

Lemma nearestAnchor_first inner anchor outer :
  Forall (fun e => tagName e <> "A") inner -> tagName anchor = "A" ->
  nearestAnchor (inner ++ anchor :: outer) = Some anchor.
Proof.
  intros Hinner Ha. unfold nearestAnchor. apply find_first.
  - eapply Forall_impl; [|exact Hinner]. intros e He. simpl in He.
    apply String.eqb_neq. assumption.
  - rewrite Ha. reflexivity.
Qed.

(** A click changes the behaviour record only by one tracked click: either
    nothing is recorded, or the click counter of a catalog song whose URL
    resolves to the same address as the link is raised by one.  A click on
    an element nested in a link whose [href] is written as the [pageUrl] of
    a catalog song, with an address that resolves, is recorded; in the first
    variant whenever the two texts are equal. *)
Theorem click_recorded_for_linked_song w songs path b :
  (onClick w songs path b = b
   \/ exists anchor link tracked,
        nearestAnchor path = Some anchor /\ href anchor = Some link
        /\ In tracked songs /\ sameLink w link tracked = true
        /\ onClick w songs path b = trackClick (title tracked) b)
  /\ (forall inner anchor outer link linked resolved,
         path = inner ++ anchor :: outer ->
         Forall (fun e => tagName e <> "A") inner -> tagName anchor = "A" ->
         href anchor = Some link -> link <> EmptyString ->
         In linked songs -> pageUrl linked = Some link ->
         URL_href w link (origin w) = Some resolved ->
         (exists tracked,
             In tracked songs /\ sameLink w link tracked = true
             /\ onClick w songs path b = trackClick (title tracked) b)
         /\ exists tracked,
              In tracked songs /\ pageUrl tracked = Some link
              /\ onClickV0 songs path b = trackClick (title tracked) b).
Proof.
  split.
  - unfold onClick.
    destruct (nearestAnchor path) as [anchor|] eqn:Ea; [|auto].
    destruct (href anchor) as [link|] eqn:El; [|auto].
    destruct (String.eqb link EmptyString); [auto|].
    destruct (find (sameLink w link) songs) as [tracked|] eqn:Ef; [|auto].
    right. exists anchor, link, tracked.
    destruct (find_some _ _ Ef). auto.
  - intros inner anchor outer link linked resolved -> Hinner Ha Hl Hne Hin Hu
      Hr.
    apply String.eqb_neq in Hne. split.
    + assert (Hsame : sameLink w link linked = true).
      { unfold sameLink. rewrite Hu. simpl. rewrite Hr.
        apply String.eqb_refl. }
      destruct (find_exists _ _ _ Hin Hsame) as [tracked Ef].
      exists tracked. destruct (find_some _ _ Ef) as [Ht Hs].
      repeat split; try assumption.
      unfold onClick.
      rewrite (nearestAnchor_first _ _ _ Hinner Ha), Hl, Hne, Ef. reflexivity.
    + set (f := fun s : Song => match pageUrl s with
                               | Some u => String.eqb u link
                               | None => false
                               end).
      assert (Hsame : f linked = true)
        by (unfold f; rewrite Hu; apply String.eqb_refl).
      destruct (find_exists _ _ _ Hin Hsame) as [tracked Ef].
      exists tracked. destruct (find_some _ _ Ef) as [Ht Hs].
      repeat split; try assumption.
      * unfold f in Hs. destruct (pageUrl tracked) as [u|]; [|discriminate].
        apply String.eqb_eq in Hs. congruence.
      * unfold onClickV0.
        rewrite (nearestAnchor_first _ _ _ Hinner Ha), Hl, Hne. fold f.
        rewrite Ef. reflexivity.
Qed.

Lemma click_recorded_for_linked_song_witness :
  exists tracked,
    In tracked [songDraft; songA; songB]
    /\ sameLink (demoWindow "/") "/songs/b" tracked = true
    /\ onClick (demoWindow "/") [songDraft; songA; songB]
         [mkElement "IMG" None; mkElement "SPAN" None;
          mkElement "A" (Some "/songs/b"); mkElement "LI" None]
         (mkBehavior [("/", 1)] [("Song B", 1)] [])
       = trackClick (title tracked) (mkBehavior [("/", 1)] [("Song B", 1)] []).
Proof.
  destruct (click_recorded_for_linked_song (demoWindow "/")
              [songDraft; songA; songB]
              [mkElement "IMG" None; mkElement "SPAN" None;
               mkElement "A" (Some "/songs/b"); mkElement "LI" None]
              (mkBehavior [("/", 1)] [("Song B", 1)] [])) as [_ H].
  apply (H [mkElement "IMG" None; mkElement "SPAN" None]
           (mkElement "A" (Some "/songs/b")) [mkElement "LI" None]
           "/songs/b" songB "https://songs.example/songs/b").
  - reflexivity.
  - repeat constructor; discriminate.
  - reflexivity.
  - reflexivity.
  - discriminate.
  - right. right. left. reflexivity.
  - reflexivity.
  - reflexivity.
Defined.

(** ** A session, counter by counter *)

(** After any sequence of tracked events each counter holds what it held,
    a missing counter counting for 0, plus what the events added to it: the
    number of visits of the page, the number of clicks on the title, the
    whole seconds of each stay on the page (each stay rounded down on its
    own). *)
Theorem session_counts events b k :
  num k (pagesVisited (session events b))
  = num k (pagesVisited b) + visitsOf k events
  /\ num k (clicks (session events b)) = num k (clicks b) + clicksOf k events
  /\ num k (timeSpent (session events b))
     = num k (timeSpent b) + secondsOn k events.
Proof.
  unfold session, visitsOf, clicksOf, secondsOn. revert b.
  induction events as [|e l IH]; intros b; [simpl; lia|].
  rewrite !sumOver_cons. cbn [fold_left].
  destruct (IH (track b e)) as (Hp & Hc & Ht). rewrite Hp, Hc, Ht.
  destruct e as [w|t|w now start]; cbn [track].
  - rewrite trackPageVisit_num.
    cbn [pagesVisited clicks timeSpent trackPageVisit]. lia.
  - rewrite trackClick_num. cbn [pagesVisited clicks timeSpent trackClick]. lia.
  - rewrite trackTimeSpent_num.
    cbn [pagesVisited clicks timeSpent trackTimeSpent]. lia.
Qed.

(** ** The two variants side by side *)

Lemma fold_left_ext_in {A B} (f g : A -> B -> A) l a :
  (forall acc x, In x l -> f acc x = g acc x) ->
  fold_left f l a = fold_left g l a.
Proof.
  revert a. induction l as [|x l IH]; intros a H; simpl; [reflexivity|].
  rewrite (H a x) by (left; reflexivity). apply IH.
  intros acc y Hy. apply H. right. assumption.
Qed.

Lemma pickRandomSong_no_current pool r :
  pickRandomSong pool None r = V0.randomOf pool r.
Proof.
  unfold pickRandomSong, V0.randomOf.
  destruct pool; simpl; [destruct (randomIndex r 0); reflexivity|reflexivity].
Qed.

(** When the page is not the page of a catalog song, and the way the later
    variant compares the visited pages with the songs' URLs comes to the
    literal comparison of the first variant, the two variants recommend the
    same song. *)
Theorem variants_agree_off_song_pages w songs b currentPageGenres r :
  getCurrentSong w songs = None ->
  (forall page sec s,
      In (page, sec) (timeSpent b) -> In s (publishedSongs songs) ->
      samePage w s page = V0.onPage page s) ->
  recommendSong w songs b currentPageGenres r
  = V0.recommendSong songs b currentPageGenres r.
Proof.
  intros Hcur Hpages.
  assert (Hscores : buildScores w songs b currentPageGenres
                    = V0.buildScores songs b currentPageGenres).
  { unfold buildScores, V0.buildScores, scoreTimes. f_equal. f_equal.
    apply fold_left_ext_in. intros acc [page sec] Hin.
    unfold scoreTime, V0.scoreTime, pageGenres. f_equal. f_equal.
    apply filter_ext_in. intros s Hs. apply (Hpages page sec s Hin Hs). }
  unfold recommendSong, V0.recommendSong. rewrite Hscores, Hcur.
  destruct (V0.buildScores songs b currentPageGenres) as [gs ns].
  rewrite !pickRandomSong_no_current.
  destruct (fst (topGenre gs)) as [g|]; [|reflexivity].
  destruct (String.eqb g EmptyString); [reflexivity|].
  destruct (List.length (matchingSongs g (publishedSongs songs)) =? 0)%nat;
    [reflexivity|].
  rewrite pickRandomSong_no_current.
  assert (Hloop : bestSongLoop w songs gs ns
                    (matchingSongs g (publishedSongs songs))
                  = V0.bestSongLoop gs ns
                      (matchingSongs g (publishedSongs songs))).
  { unfold bestSongLoop, V0.bestSongLoop. apply fold_left_ext_in.
    intros acc s _. unfold bestSongStep, V0.bestSongStep. rewrite Hcur.
    reflexivity. }
  rewrite Hloop. reflexivity.
Qed.

Lemma variants_agree_off_song_pages_witness :
  recommendSong (demoWindow "/about") [songA; songDraft; songB]
    (mkBehavior [("/about", 2)] [("Song B", 2)] [("/songs/a", 200)])
    ["praise"] (mkDraw 1 0)
  = V0.recommendSong [songA; songDraft; songB]
      (mkBehavior [("/about", 2)] [("Song B", 2)] [("/songs/a", 200)])
      ["praise"] (mkDraw 1 0).
Proof.
  apply (variants_agree_off_song_pages (demoWindow "/about")
           [songA; songDraft; songB]); [reflexivity|].
  intros page sec s [Heq|[]] Hs. inversion Heq; subst.
  destruct Hs as [<-|[<-|[]]]; reflexivity.
Defined.

(** ** One card a day *)

(** In the variant that stores the instant of the last card: once a card
    was built at [t1], a recommendation that comes less than 24 hours later
    changes nothing, and one that comes 24 hours later or more gets its
    card.  The instant is read back from its own text. *)
Theorem one_card_a_day toText parseInt t1 t2 x y s :
  parseInt (toText t1) = Some t1 -> toText t1 <> EmptyString ->
  cards (showRecommendationAt toText parseInt t1 x s) = cards s ++ [x] ->
  (t2 - t1 < dayMs ->
   showRecommendationAt toText parseInt t2 y
     (showRecommendationAt toText parseInt t1 x s)
   = showRecommendationAt toText parseInt t1 x s)
  /\ (dayMs <= t2 - t1 ->
      cards (showRecommendationAt toText parseInt t2 y
               (showRecommendationAt toText parseInt t1 x s))
      = cards s ++ [x; y]).
Proof.
  intros Hparse Htext Hbuilt.
  assert (Hs1 : showRecommendationAt toText parseInt t1 x s
                = mkSession (setItem lastShownKey (toText t1)
                               (sessionStorage s))
                            (cards s ++ [x])).
  { unfold showRecommendationAt in *.
    destruct (truthyItem (getItem lastShownKey (sessionStorage s)) && _);
      [|reflexivity].
    exfalso. rewrite <- (app_nil_r (cards s)) in Hbuilt at 1.
    apply app_inv_head in Hbuilt. discriminate. }
  rewrite Hs1. unfold showRecommendationAt. cbn [sessionStorage cards].
  rewrite getItem_setItem_same, Hparse. apply String.eqb_neq in Htext.
  unfold truthyItem. rewrite Htext. cbn [negb andb].
  split; intros Ht.
  - destruct (Z.ltb_spec (t2 - t1) dayMs); [reflexivity|lia].
  - destruct (Z.ltb_spec (t2 - t1) dayMs); [lia|].
    cbn [cards]. rewrite <- app_assoc. reflexivity.
Qed.

Lemma one_card_a_day_witness :
  showRecommendationAt demoToText demoParseInt 1730573600000 songB
    (showRecommendationAt demoToText demoParseInt 1730570000000 songA
       (mkSession [] []))
  = showRecommendationAt demoToText demoParseInt 1730570000000 songA
      (mkSession [] [])
  /\ cards (showRecommendationAt demoToText demoParseInt 1730656400000 songB
              (showRecommendationAt demoToText demoParseInt 1730570000000
                 songA (mkSession [] [])))
     = [songA; songB].
Proof.
  destruct (one_card_a_day demoToText demoParseInt 1730570000000
              1730573600000 songA songB (mkSession [] []))
    as [Hsoon _]; [reflexivity|discriminate|reflexivity|].
  destruct (one_card_a_day demoToText demoParseInt 1730570000000
              1730656400000 songA songB (mkSession [] []))
    as [_ Hlate]; [reflexivity|discriminate|reflexivity|].
  split; [apply Hsoon|apply Hlate]; vm_compute; congruence.
Defined.
